(** * Author attribution of extension manifests

    A shallow embedding of [scripts/postprocess-manifests.ts]: the commit
    line parser ([getKeiyoushiCommits]), the handle extraction
    ([extractGithubFromNoreply]) and the merge, dedup and ordering steps of
    [getAuthors], followed by the properties the design document states
    about them; then the snapshot cache and [processManifest] of the same
    script, and the summary, the duration and [escapeHtml] of
    [scripts/generate-build-report.ts], with properties read off the code.

    Modelling conventions.
    - A JavaScript string is a [string]: a sequence of code units, here
      restricted to code units below 256.  [<] on strings is the
      lexicographic comparison of code units, [String.ltb].
    - A JavaScript [Map] keeps its keys in insertion order and the code
      iterates over it, so it is an association list with unique keys:
      [JsMap.set] overwrites in place or appends.
    - [commits] is a JavaScript number holding an integer; it is a [Z]
      (additions are exact in the safe integer range).
    - The file system and the [git log] subprocess are read from an
      explicit environment [Env]; a throwing call is the outcome
      [Throws].
    - The module variable [historicalCommitsCache] is passed to the
      functions that read it and returned by them with their result. *)

From Stdlib Require Import List String Ascii ZArith NArith Bool Lia.
From Stdlib Require Import Permutation Sorted OrderedTypeEx.
Import ListNotations.

Local Open Scope string_scope.
Local Open Scope list_scope.
Local Open Scope Z_scope.

(** ** Strings *)

Definition codeUnit (c : ascii) : N := N_of_ascii c.

(** [\d] of a regular expression without the unicode flag: [0-9]. *)
Definition isDigit (c : ascii) : bool :=
  ((48 <=? codeUnit c) && (codeUnit c <=? 57))%N.

(** White space and line terminators removed by [String.prototype.trim],
    among the code units below 256: TAB, LF, VT, FF, CR, SP, NBSP. *)
Definition isWhiteSpace (c : ascii) : bool :=
  let n := codeUnit c in
  ((9 <=? n) && (n <=? 13) || (n =? 32) || (n =? 160))%N.

(** [String.prototype.toLowerCase] on one code unit below 256: [A-Z] and
    the capital letters of the Latin-1 supplement (U+00C0 to U+00DE,
    without the multiplication sign U+00D7) move up by 32. *)
Definition lowerCodeUnit (c : ascii) : ascii :=
  let n := codeUnit c in
  if ((65 <=? n) && (n <=? 90)
      || (192 <=? n) && (n <=? 222) && negb (n =? 215))%N
  then ascii_of_N (n + 32) else c.

Fixpoint toLowerCase (s : string) : string :=
  match s with
  | EmptyString => EmptyString
  | String c s' => String (lowerCodeUnit c) (toLowerCase s')
  end.

Definition isEmpty (s : string) : bool :=
  match s with EmptyString => true | String _ _ => false end.

Fixpoint trimStart (s : string) : string :=
  match s with
  | EmptyString => EmptyString
  | String c s' => if isWhiteSpace c then trimStart s' else s
  end.

Fixpoint trimEnd (s : string) : string :=
  match s with
  | EmptyString => EmptyString
  | String c s' =>
      let r := trimEnd s' in
      if isWhiteSpace c && isEmpty r then EmptyString else String c r
  end.

Definition trim (s : string) : string := trimEnd (trimStart s).

(** [s.split(sep)] for a separator of one code unit; the result is never
    the empty array. *)
Fixpoint split (sep : ascii) (s : string) : list string :=
  match s with
  | EmptyString => [EmptyString]
  | String c s' =>
      if Ascii.eqb c sep then EmptyString :: split sep s'
      else match split sep s' with
           | piece :: rest => String c piece :: rest
           | [] => [String c EmptyString]
           end
  end.

(** Truthiness of a value of type [string | undefined] and
    [string | null]: absent and the empty string are falsy. *)
Definition truthy (v : option string) : bool :=
  match v with
  | Some s => negb (isEmpty s)
  | None => false
  end.

(** ** JavaScript [Map] with string keys *)

Module JsMap.
Section Ops.
Context {V : Type}.

Definition t := list (string * V).

Definition empty : t := [].

Fixpoint get (k : string) (m : t) : option V :=
    match m with
    | [] => None
    | (k', v) :: m' => if String.eqb k k' then Some v else get k m'
    end.

  (** A present key keeps its position, a new key goes last. *)
Fixpoint set (k : string) (v : V) (m : t) : t :=
    match m with
    | [] => [(k, v)]
    | (k', v') :: m' =>
        if String.eqb k k' then (k, v) :: m' else (k', v') :: set k v m'
    end.

Definition keys (m : t) : list string := map fst m.
Definition values (m : t) : list V := map snd m.
Definition entries (m : t) : list (string * V) := m.
End Ops.
Arguments t : clear implicits.
End JsMap.

(** ** Types *)

Module ContributorData.
Record t := mk
    { email : string; name : string; commits : Z; firstCommit : string }.
End ContributorData.

Module AuthorOutput.
Record t := mk
    { github : option string; name : string; commits : Z;
      firstCommit : string }.
End AuthorOutput.

(** The value type of [byEmail] in [getKeiyoushiCommits]. *)
Module Tally.
Record t := mk { name : string; commits : Z; firstCommit : string }.
End Tally.

(** ** extractGithubFromNoreply *)

Definition noreplySuffix : string := "@users.noreply.github.com".

Fixpoint skipDigits (s : string) : string :=
  match s with
  | String c s' => if isDigit c then skipDigits s' else s
  | EmptyString => EmptyString
  end.

(** [\d+\+] at the start of [s]: the rest of [s] behind it.  The run of
    digits cannot be shortened, since a ['+'] has to follow it. *)
Definition matchDigitsPlus (s : string) : option string :=
  match s with
  | String c s' =>
      if isDigit c then
        match skipDigits s' with
        | String p rest => if Ascii.eqb p "+" then Some rest else None
        | EmptyString => None
        end
      else None
  | EmptyString => None
  end.

(** The longest prefix without ['@'] and what follows it. *)
Fixpoint spanNotAt (s : string) : string * string :=
  match s with
  | EmptyString => (EmptyString, EmptyString)
  | String c s' =>
      if Ascii.eqb c "@" then (EmptyString, s)
      else let (h, r) := spanNotAt s' in (String c h, r)
  end.

(** [([^@]+)@users\.noreply\.github\.com$] at the start of [s]: the
    group.  A shorter group would have to be followed by ['@']. *)
Definition matchHandle (s : string) : option string :=
  let (h, r) := spanNotAt s in
  if negb (isEmpty h) && String.eqb r noreplySuffix then Some h else None.

(** [/^(?:\d+\+)?([^@]+)@users\.noreply\.github\.com$/]: the optional
    group is tried first and given up when the rest does not match. *)
Definition extractGithubFromNoreply (email : string) : option string :=
  match matchDigitsPlus email with
  | Some rest =>
      match matchHandle rest with
      | Some h => Some h
      | None => matchHandle email
      end
  | None => matchHandle email
  end.

(** ** Calls that may throw *)

Inductive outcome (A : Type) : Type :=
| Returns (a : A)
| Throws.
Arguments Returns {A} a.
Arguments Throws {A}.

(** ** The snapshot file

    A file is absent, or present with the result of reading and parsing
    it.  What [JSON.parse] gives for [data/historical-commits.json] is
    described as far as [getAuthors] looks at it: the values of the
    declared type [{ extensions: Record<string, ContributorData[]> }] and
    the values on which lines 106 to 114 and 133 throw.  An [extensions]
    field that is an array or a primitive, and an array element with a
    string under [email] but a name, a count or a date of another type,
    on which the script goes on with values the record types do not hold,
    have no counterpart here. *)

Inductive fileState (A : Type) : Type :=
| Absent
| Present (parsed : outcome A).
Arguments Absent {A}.
Arguments Present {A} parsed.

(** An element of the array of a unit: an object of the declared type;
    null, on which [c.email] throws in the first loop; or another value
    without a string under [email] (a primitive, an array, an object),
    which is filed under that key and on which [email.match] throws in
    the third loop. *)
Inductive snapshotElement : Type :=
| ElementRecord (c : ContributorData.t)
| ElementNull
| ElementWithoutEmail.

(** The own property of [extensions] for a unit: null, which [?? []]
    turns into the empty array; an array; a string, which [for ... of]
    runs through character by character; or a boolean, a number or an
    object, which is not iterable. *)
Inductive snapshotEntry : Type :=
| EntryNull
| EntryArray (items : list snapshotElement)
| EntryString (s : string)
| EntryNotIterable.

Inductive snapshotExtensions : Type :=
| ExtensionsNull
| ExtensionsObject (own : JsMap.t snapshotEntry).

(** The parsed file: an object, with its own property [extensions] if
    it has one; or null, a primitive or an array, of which only the
    truthiness matters, since none of them has a property [extensions]. *)
Inductive snapshotData : Type :=
| DataObject (extensions : option snapshotExtensions)
| DataOther (truthy : bool).

(** What the script reads from outside: the snapshot file, whether the
    source directory of the unit exists, and the result of the [git log]
    call. *)
Record Env := mkEnv
  { historicalCommitsFile : fileState snapshotData;
    existsSync : string -> bool;
    execSync : string -> outcome string }.

(** ** getKeiyoushiCommits *)

(** [const [email, name, date] = line.split("|")] with the test
    [!email || !name || !date]. *)
Definition lineFields (line : string) : option (string * string * string) :=
  let fields := split "|" line in
  let email := nth_error fields 0 in
  let name := nth_error fields 1 in
  let date := nth_error fields 2 in
  match email, name, date with
  | Some e, Some n, Some d =>
      if negb (truthy email) || negb (truthy name) || negb (truthy date)
      then None else Some (e, n, d)
  | _, _, _ => None
  end.

(** One iteration of the loop over the log lines. *)
Definition tallyLine (byEmail : JsMap.t Tally.t) (line : string)
  : JsMap.t Tally.t :=
  match lineFields line with
  | None => byEmail
  | Some (email, name, date) =>
      let dateOnly := hd EmptyString (split "T" date) in
      match JsMap.get email byEmail with
      | Some existing =>
          JsMap.set email
            (Tally.mk (Tally.name existing) (Tally.commits existing + 1)
               (if String.ltb dateOnly (Tally.firstCommit existing)
                then dateOnly else Tally.firstCommit existing))
            byEmail
      | None => JsMap.set email (Tally.mk name 1 dateOnly) byEmail
      end
  end.

Definition tallyLines (lines : list string) : JsMap.t Tally.t :=
  fold_left tallyLine lines JsMap.empty.

(** [output.trim().split("\n").filter(Boolean)]. *)
Definition commitLines (output : string) : list string :=
  filter (fun l => negb (isEmpty l)) (split "010" (trim output)).

Definition toContributor (e : string * Tally.t) : ContributorData.t :=
  ContributorData.mk (fst e) (Tally.name (snd e)) (Tally.commits (snd e))
    (Tally.firstCommit (snd e)).

(** The body of the [try] block, from the output of [git log]. *)
Definition parseLog (output : string) : list ContributorData.t :=
  map toContributor (JsMap.entries (tallyLines (rev (commitLines output)))).

(** The function as a computation that may throw: the [catch] turns a
    throwing [execSync] into the empty array.  The source root, the cutoff
    date and the options of the call are constants of the script, so
    [existsSync] and [execSync] are asked about [fullPath] alone. *)
Definition getKeiyoushiCommits (env : Env) (extensionPath : string)
  : outcome (list ContributorData.t) :=
  let fullPath := String.append "src/" extensionPath in
  if negb (existsSync env fullPath) then Returns []
  else
    match execSync env fullPath with
    | Returns output => Returns (parseLog output)
    | Throws => Returns []
    end.

(** ** loadHistoricalCommits *)

(** [{ extensions: {} }]. *)
Definition defaultSnapshot : snapshotData :=
  DataObject (Some (ExtensionsObject [])).

Definition truthyData (data : snapshotData) : bool :=
  match data with
  | DataObject _ => true
  | DataOther truthy => truthy
  end.

(** The rest of the function when the cache is falsy. *)
Definition readSnapshot (env : Env)
  (historicalCommitsCache : option snapshotData)
  : outcome snapshotData * option snapshotData :=
  match historicalCommitsFile env with
  | Absent => (Returns defaultSnapshot, Some defaultSnapshot)
  | Present (Returns data) => (Returns data, Some data)
  | Present Throws => (Throws, historicalCommitsCache)
  end.

(** [historicalCommitsCache], null at first, is threaded: the function
    takes it and returns it with its result.  The test of line 49 is a
    test of truthiness. *)
Definition loadHistoricalCommits (env : Env)
  (historicalCommitsCache : option snapshotData)
  : outcome snapshotData * option snapshotData :=
  match historicalCommitsCache with
  | Some data =>
      if truthyData data then (Returns data, historicalCommitsCache)
      else readSnapshot env historicalCommitsCache
  | None => readSnapshot env historicalCommitsCache
  end.

(** The names of the properties of [Object.prototype], which every
    object of a parsed file inherits: functions and, under [__proto__],
    the prototype itself, none of them null or iterable. *)
Definition objectPrototypeKeys : list string :=
  ["constructor"; "__defineGetter__"; "__defineSetter__"; "hasOwnProperty";
   "__lookupGetter__"; "__lookupSetter__"; "isPrototypeOf";
   "propertyIsEnumerable"; "toString"; "valueOf"; "__proto__";
   "toLocaleString"].

Definition inheritsKey (key : string) : bool :=
  existsb (String.eqb key) objectPrototypeKeys.

(** The elements of an array as records: one element that is not a
    record makes [getAuthors] throw. *)
Fixpoint recordsOf (items : list snapshotElement)
  : outcome (list ContributorData.t) :=
  match items with
  | [] => Returns []
  | ElementRecord c :: rest =>
      match recordsOf rest with
      | Returns l => Returns (c :: l)
      | Throws => Throws
      end
  | ElementNull :: _ => Throws
  | ElementWithoutEmail :: _ => Throws
  end.

(** [historicalData.extensions[extensionPath] ?? []] of line 107, as the
    list of records the loops run through; [Throws] when line 107, the
    [for ... of] of line 113 or an element makes the function throw. *)
Definition readHistorical (historicalData : snapshotData)
  (extensionPath : string) : outcome (list ContributorData.t) :=
  match historicalData with
  | DataOther _ => Throws
  | DataObject None => Throws
  | DataObject (Some ExtensionsNull) => Throws
  | DataObject (Some (ExtensionsObject own)) =>
      match JsMap.get extensionPath own with
      | Some EntryNull => Returns []
      | Some (EntryArray items) => recordsOf items
      | Some (EntryString s) => if isEmpty s then Returns [] else Throws
      | Some EntryNotIterable => Throws
      | None => if inheritsKey extensionPath then Throws else Returns []
      end
  end.

(** ** getAuthors *)

(** First loop: [byEmail.set(c.email, { ...c })]. *)
Definition mergeHistorical (byEmail : JsMap.t ContributorData.t)
  (c : ContributorData.t) : JsMap.t ContributorData.t :=
  JsMap.set (ContributorData.email c) c byEmail.

(** Second loop: a live record is added to the record of its address. *)
Definition mergeKeiyoushi (byEmail : JsMap.t ContributorData.t)
  (c : ContributorData.t) : JsMap.t ContributorData.t :=
  match JsMap.get (ContributorData.email c) byEmail with
  | Some existing =>
      JsMap.set (ContributorData.email c)
        (ContributorData.mk
           (ContributorData.email existing)
           (ContributorData.name existing)
           (ContributorData.commits existing + ContributorData.commits c)
           (if String.ltb (ContributorData.firstCommit c)
                 (ContributorData.firstCommit existing)
            then ContributorData.firstCommit c
            else ContributorData.firstCommit existing))
        byEmail
  | None => JsMap.set (ContributorData.email c) c byEmail
  end.

Definition byEmail (historical keiyoushi : list ContributorData.t)
  : JsMap.t ContributorData.t :=
  fold_left mergeKeiyoushi keiyoushi
    (fold_left mergeHistorical historical JsMap.empty).

(** [github?.toLowerCase() ?? c.email.toLowerCase()]. *)
Definition identityKey (email : string) : string :=
  match extractGithubFromNoreply email with
  | Some github => toLowerCase github
  | None => toLowerCase email
  end.

(** Third loop, over [byEmail.values()]. *)
Definition dedupe (byIdentity : JsMap.t AuthorOutput.t)
  (c : ContributorData.t) : JsMap.t AuthorOutput.t :=
  let github := extractGithubFromNoreply (ContributorData.email c) in
  let key := identityKey (ContributorData.email c) in
  match JsMap.get key byIdentity with
  | Some existing =>
      let earlier :=
        String.ltb (ContributorData.firstCommit c)
          (AuthorOutput.firstCommit existing) in
      JsMap.set key
        (AuthorOutput.mk
           (if truthy github && negb (truthy (AuthorOutput.github existing))
            then github else AuthorOutput.github existing)
           (if earlier then ContributorData.name c
            else AuthorOutput.name existing)
           (AuthorOutput.commits existing + ContributorData.commits c)
           (if earlier then ContributorData.firstCommit c
            else AuthorOutput.firstCommit existing))
        byIdentity
  | None =>
      JsMap.set key
        (AuthorOutput.mk github (ContributorData.name c)
           (ContributorData.commits c) (ContributorData.firstCommit c))
        byIdentity
  end.

Definition byIdentity (records : list ContributorData.t)
  : JsMap.t AuthorOutput.t :=
  fold_left dedupe records JsMap.empty.

(** [Array.prototype.sort] is stable; with a comparator it is the stable
    insertion sort.  [localeCompare] depends on the collation of the
    host, so it is a parameter; only its sign is used. *)
Section Sort.
Variable localeCompare : string -> string -> comparison.

Definition compareAuthors (a b : AuthorOutput.t) : comparison :=
    localeCompare (AuthorOutput.firstCommit a) (AuthorOutput.firstCommit b).

Fixpoint insertAuthor (a : AuthorOutput.t) (l : list AuthorOutput.t)
    : list AuthorOutput.t :=
    match l with
    | [] => [a]
    | b :: l' =>
        match compareAuthors a b with
        | Gt => b :: insertAuthor a l'
        | _ => a :: l
        end
    end.

Definition sortAuthors (l : list AuthorOutput.t) : list AuthorOutput.t :=
    fold_right insertAuthor [] l.

  (** [getAuthors] on the two sources it has read. *)
Definition getAuthorsFrom (historical keiyoushi : list ContributorData.t)
    : list AuthorOutput.t :=
    sortAuthors
      (JsMap.values
         (byIdentity (JsMap.values (byEmail historical keiyoushi)))).

Definition getAuthors (env : Env)
    (historicalCommitsCache : option snapshotData) (extensionPath : string)
    : outcome (list AuthorOutput.t) * option snapshotData :=
    match loadHistoricalCommits env historicalCommitsCache with
    | (Returns historicalData, cache) =>
        (match readHistorical historicalData extensionPath,
               getKeiyoushiCommits env extensionPath with
         | Returns historical, Returns keiyoushi =>
             Returns (getAuthorsFrom historical keiyoushi)
         | _, _ => Throws
         end, cache)
    | (Throws, cache) => (Throws, cache)
    end.
End Sort.

(** Code unit order as a collation, for running the model. *)
Definition codeUnitCompare : string -> string -> comparison := String.compare.

(** ** Vocabulary of the statements *)

Definition dateLe (a b : string) : Prop := String.leb a b = true.
Definition dateLt (a b : string) : Prop := String.ltb a b = true.

Definition sumZ {X : Type} (f : X -> Z) (l : list X) : Z :=
  fold_right (fun x s => f x + s) 0 l.

(** The three loops over a map share one shape: look the key of the
    record up, merge into the entry found or start a new one. *)
Section Upsert.
Context {A V : Type}.
Variable key : A -> string.
Variable init : A -> V.
Variable merge : V -> A -> V.

Definition upsert (m : JsMap.t V) (x : A) : JsMap.t V :=
  match JsMap.get (key x) m with
  | Some v => JsMap.set (key x) (merge v x) m
  | None => JsMap.set (key x) (init x) m
  end.

Definition accum (o : option V) (x : A) : option V :=
  Some (match o with Some v => merge v x | None => init x end).

(** The records of [l] with key [k], in the order of [l]. *)
Definition group (k : string) (l : list A) : list A :=
  filter (fun x => String.eqb (key x) k) l.
End Upsert.

(** The second loop of [getAuthors] on an address already present. *)
Definition addLive (existing c : ContributorData.t) : ContributorData.t :=
  ContributorData.mk
    (ContributorData.email existing)
    (ContributorData.name existing)
    (ContributorData.commits existing + ContributorData.commits c)
    (if String.ltb (ContributorData.firstCommit c)
          (ContributorData.firstCommit existing)
     then ContributorData.firstCommit c
     else ContributorData.firstCommit existing).

(** The third loop on a new key and on a key already present. *)
Definition newIdentity (c : ContributorData.t) : AuthorOutput.t :=
  AuthorOutput.mk (extractGithubFromNoreply (ContributorData.email c))
    (ContributorData.name c) (ContributorData.commits c)
    (ContributorData.firstCommit c).

Definition mergeIdentity (existing : AuthorOutput.t) (c : ContributorData.t)
  : AuthorOutput.t :=
  AuthorOutput.mk
    (if truthy (extractGithubFromNoreply (ContributorData.email c))
        && negb (truthy (AuthorOutput.github existing))
     then extractGithubFromNoreply (ContributorData.email c)
     else AuthorOutput.github existing)
    (if String.ltb (ContributorData.firstCommit c)
          (AuthorOutput.firstCommit existing)
     then ContributorData.name c else AuthorOutput.name existing)
    (AuthorOutput.commits existing + ContributorData.commits c)
    (if String.ltb (ContributorData.firstCommit c)
          (AuthorOutput.firstCommit existing)
     then ContributorData.firstCommit c
     else AuthorOutput.firstCommit existing).

Definition recordKey (c : ContributorData.t) : string :=
  identityKey (ContributorData.email c).

Definition emails (l : list ContributorData.t) : list string :=
  map ContributorData.email l.

(** The Source Merger as an operation on lists of records: the values
    of [byEmail], in the order of the map. *)
Definition mergeSources (a b : list ContributorData.t)
  : list ContributorData.t :=
  JsMap.values (byEmail a b).

(** The commit count recorded for an address, if the address occurs. *)
Definition commitsAt (e : string) (l : list ContributorData.t) : option Z :=
  option_map ContributorData.commits
    (find (fun c => String.eqb (ContributorData.email c) e) l).

Definition addCounts (a b : option Z) : option Z :=
  match a, b with
  | Some x, Some y => Some (x + y)
  | Some x, None => Some x
  | None, _ => b
  end.

(** [d] is the minimum of the dates [ds]. *)
Definition isMinDate (d : string) (ds : list string) : Prop :=
  In d ds /\ forall d', In d' ds -> dateLe d d'.

(** The first seen dates of the records of [l] with identity key [k],
    and of those with address [e]. *)
Definition datesOfKey (k : string) (l : list ContributorData.t) : list string :=
  map ContributorData.firstCommit (group recordKey k l).

Definition datesOfAddress (e : string) (l : list ContributorData.t)
  : list string :=
  map ContributorData.firstCommit (group ContributorData.email e l).

(** The name of the identity [a] of key [k] is the name of an input
    record of that key with the least date among the input records of the
    key. *)
Definition nameOfEarliestInput (inputs : list ContributorData.t)
  (k : string) (a : AuthorOutput.t) : Prop :=
  exists c,
    In c inputs /\ recordKey c = k
    /\ (forall c', In c' inputs -> recordKey c' = k ->
                   dateLe (ContributorData.firstCommit c)
                     (ContributorData.firstCommit c'))
    /\ AuthorOutput.name a = ContributorData.name c.

(** The first handle that the addresses of a list of records give. *)
Definition orElse (a b : option string) : option string :=
  match a with Some _ => a | None => b end.

Definition firstHandle (l : list ContributorData.t) : option string :=
  fold_right
    (fun c o => orElse (extractGithubFromNoreply (ContributorData.email c)) o)
    None l.

(** A record without a handle whose address differs, in the sense of
    [differ], from every other address of [records] has an identity of
    its own, with its name, count and date and without a handle. *)
Definition remainsAlone (differ : string -> string -> Prop)
  (records : list ContributorData.t) : Prop :=
  forall pre c post,
    records = pre ++ c :: post ->
    extractGithubFromNoreply (ContributorData.email c) = None ->
    (forall c', In c' (pre ++ post) ->
                differ (ContributorData.email c') (ContributorData.email c)) ->
    In (recordKey c,
        AuthorOutput.mk None (ContributorData.name c)
          (ContributorData.commits c) (ContributorData.firstCommit c))
      (byIdentity records).

Definition differFolded (e e' : string) : Prop :=
  toLowerCase e <> toLowerCase e'.

Definition differInKey (e e' : string) : Prop :=
  identityKey e <> identityKey e'.

(** A handle is absent or not empty. *)
Definition goodHandle (o : option string) : Prop :=
  match o with Some h => truthy (Some h) = true | None => True end.

(** A calendar date in the ISO form [YYYY-MM-DD]. *)
Definition isIsoDate (s : string) : bool :=
  match list_ascii_of_string s with
  | [y1; y2; y3; y4; h1; m1; m2; h2; d1; d2] =>
      forallb isDigit [y1; y2; y3; y4; m1; m2; d1; d2]
      && Ascii.eqb h1 "-" && Ascii.eqb h2 "-"
  | _ => false
  end.

(** What is assumed of the collation of the host: on two ISO dates it
    agrees with the order of code units. *)
Definition collatesDates (localeCompare : string -> string -> comparison)
  : Prop :=
  forall a b, isIsoDate a = true -> isIsoDate b = true ->
              localeCompare a b = String.compare a b.

Definition hasDate (d : string) (a : AuthorOutput.t) : bool :=
  String.eqb (AuthorOutput.firstCommit a) d.

Definition authorLe (x y : AuthorOutput.t) : Prop :=
  dateLe (AuthorOutput.firstCommit x) (AuthorOutput.firstCommit y).

Definition isoRecord (c : ContributorData.t) : Prop :=
  isIsoDate (ContributorData.firstCommit c) = true.

Definition isoAuthor (a : AuthorOutput.t) : Prop :=
  isIsoDate (AuthorOutput.firstCommit a) = true.

(** A log line lacks a field when one of the first three pieces between
    ['|'] is absent or empty. *)
Definition missingField (line : string) : Prop :=
  exists i, (i < 3)%nat /\ truthy (nth_error (split "|" line) i) = false.

(** The well-formed lines, as their three fields. *)
Definition validFields (lines : list string)
  : list (string * string * string) :=
  flat_map (fun l => match lineFields l with Some f => [f] | None => [] end)
    lines.

Definition fieldsEmail (f : string * string * string) : string := fst (fst f).

Definition dateOnly (date : string) : string :=
  hd EmptyString (split "T" date).

(** The loop of [getKeiyoushiCommits] on a new and on a known address. *)
Definition newTally (f : string * string * string) : Tally.t :=
  Tally.mk (snd (fst f)) 1 (dateOnly (snd f)).

Definition addLine (existing : Tally.t) (f : string * string * string)
  : Tally.t :=
  Tally.mk (Tally.name existing) (Tally.commits existing + 1)
    (if String.ltb (dateOnly (snd f)) (Tally.firstCommit existing)
     then dateOnly (snd f) else Tally.firstCommit existing).

(** The well-formed lines of an address. *)
Definition linesOfAddress (e : string) (lines : list string) : list string :=
  filter (fun l => match lineFields l with
                   | Some f => String.eqb (fieldsEmail f) e
                   | None => false
                   end) lines.

Definition containsAt (s : string) : bool :=
  existsb (Ascii.eqb "@") (list_ascii_of_string s).

(** ** Sample inputs

    The scenario of the design document, with the anonymization domain
    of the code, and a live address that also occurs in the snapshot. *)

Definition sampleHistorical : list ContributorData.t :=
  [ContributorData.mk "a@x.com" "Alice" 3 "2023-01-01";
   ContributorData.mk "carol@x.com" "Carol" 2 "2023-06-15"].

Definition sampleKeiyoushi : list ContributorData.t :=
  [ContributorData.mk "12345+alice@users.noreply.github.com" "alice" 2
     "2024-02-01";
   ContributorData.mk "carol@x.com" "Carol C" 4 "2024-03-01"].

Definition sampleThird : list ContributorData.t :=
  [ContributorData.mk "carol@x.com" "C" 1 "2024-04-01"].

Definition sampleAuthor : AuthorOutput.t :=
  AuthorOutput.mk None "Carol" 6 "2023-06-15".

Definition sampleLog : string :=
  String.concat (String "010" EmptyString)
    ["alice@x.com|Alice|2024-03-01T10:00:00+00:00";
     "bob@x.com|Bob Smith|";
     "alice@x.com|Alice|2024-02-01T09:30:00+00:00"].

(** Two anonymized addresses of one contributor and a plain address. *)
Definition sampleAnonymized : ContributorData.t :=
  ContributorData.mk "12345+alice@users.noreply.github.com" "alice" 2
    "2024-02-01".

Definition sampleAnonymized' : ContributorData.t :=
  ContributorData.mk "678+Alice@users.noreply.github.com" "Alice" 1
    "2024-01-15".

Definition samplePlain : ContributorData.t :=
  ContributorData.mk "dave@x.com" "Dave" 4 "2023-03-03".

(** A snapshot that lists [sampleHistorical] for every sample unit. *)
Definition sampleSnapshot : snapshotData :=
  DataObject
    (Some (ExtensionsObject
             [("en/mangapill", EntryArray (map ElementRecord sampleHistorical))])).

(** An environment in which the source directory of no unit exists. *)
Definition sampleEnv : Env :=
  mkEnv (Present (Returns sampleSnapshot)) (fun _ => false) (fun _ => Throws).

(** ** Shapes of addresses *)

Definition allDigits (s : string) : bool :=
  forallb isDigit (list_ascii_of_string s).

(** [prefix] is empty or a run of digits followed by ['+']. *)
Definition isIdPrefix (prefix : string) : Prop :=
  prefix = EmptyString
  \/ exists d, d <> EmptyString /\ allDigits d = true
               /\ prefix = String.append d "+".

(** ** Vocabulary of the parser *)

Definition fieldsName (f : string * string * string) : string := snd (fst f).
Definition fieldsDate (f : string * string * string) : string := snd f.

Definition isBlank (s : string) : bool :=
  forallb isWhiteSpace (list_ascii_of_string s).

(** The date field is an ISO date, ['T'] and more, as [%aI] prints it. *)
Definition isTimestamp (date : string) : Prop :=
  exists day time,
    isIsoDate day = true
    /\ date = String.append day (String "T" time).

Definition fieldsDay (f : string * string * string) : string :=
  dateOnly (fieldsDate f).

Definition lacks (sep : ascii) (s : string) : bool :=
  forallb (fun c => negb (Ascii.eqb c sep)) (list_ascii_of_string s).

(** The lines [getKeiyoushiCommits] tallies in [env]: none when the
    source directory is missing or the query throws. *)
Definition liveLines (env : Env) (extensionPath : string) : list string :=
  if existsSync env (String.append "src/" extensionPath) then
    match execSync env (String.append "src/" extensionPath) with
    | Returns output => commitLines output
    | Throws => []
    end
  else [].

(** An environment in which the query succeeds and prints [sampleLog]. *)
Definition sampleEnvLive : Env :=
  mkEnv (Present (Returns sampleSnapshot)) (fun _ => true)
    (fun _ => Returns sampleLog).

(** Every entry of a per-address map is filed under its own address. *)
Definition keyed (m : JsMap.t ContributorData.t) : Prop :=
  forall k r, In (k, r) m -> ContributorData.email r = k.

(** The commits of a record, counted when the record has identity key [k]. *)
Definition keyCommits (k : string) (c : ContributorData.t) : Z :=
  if String.eqb (recordKey c) k then ContributorData.commits c else 0.

(** The overwriting [set] of the first loop as a merge. *)
Definition overwrite (existing c : ContributorData.t) : ContributorData.t := c.

(** ** Runs of [loadHistoricalCommits] *)

(** One call in each environment of [envs], in turn, the cache passed
    from each call to the next: the results and the cache at the end. *)
Fixpoint loadEach (envs : list Env)
  (historicalCommitsCache : option snapshotData)
  : list (outcome snapshotData) * option snapshotData :=
  match envs with
  | [] => ([], historicalCommitsCache)
  | env :: rest =>
      let (result, cache) := loadHistoricalCommits env historicalCommitsCache in
      let (results, cache') := loadEach rest cache in
      (result :: results, cache')
  end.

(** ** Vocabulary of the fallback to the historical records *)

(** The author [a] stands for the records [g] of one key: its count is
    their sum, its handle the first handle among them, and its name and
    date are those of the first of them that has the least date. *)
Definition standsFor (a : AuthorOutput.t) (g : list ContributorData.t) : Prop :=
  AuthorOutput.commits a = sumZ ContributorData.commits g
  /\ AuthorOutput.github a = firstHandle g
  /\ exists g1 c g2,
       g = g1 ++ c :: g2
       /\ AuthorOutput.name a = ContributorData.name c
       /\ AuthorOutput.firstCommit a = ContributorData.firstCommit c
       /\ (forall y, In y g1 ->
                     dateLt (ContributorData.firstCommit c)
                       (ContributorData.firstCommit y))
       /\ (forall y, In y g2 ->
                     dateLe (ContributorData.firstCommit c)
                       (ContributorData.firstCommit y)).

(** ** processManifest

    A manifest file is absent, or present with the result of reading
    and parsing it.  The values of a manifest are opaque to the script,
    which only stores the author list under ["authors"]; [encodeAuthors]
    gives the value of the list and [path.join] is a parameter.  The
    console is not modelled. *)

(** What [JSON.parse] gives for a manifest: an object with its own
    properties in order, an array, or null or a primitive. *)
Inductive manifestData (Value : Type) : Type :=
| ManifestObject (fields : JsMap.t Value)
| ManifestArray (items : list Value)
| ManifestOther.
Arguments ManifestObject {Value} fields.
Arguments ManifestArray {Value} items.
Arguments ManifestOther {Value}.

(** A write that throws leaves the file as it was, or in a state of its
    own, such as a truncated file that no longer parses. *)
Inductive failedWrite (A : Type) : Type :=
| LeavesFile
| LeavesState (state : fileState A).
Arguments LeavesFile {A}.
Arguments LeavesState {A} state.

Section Manifests.
Variable Value : Type.
Variable encodeAuthors : list AuthorOutput.t -> Value.
Variable pathJoin : string -> string -> string.

(** [writeFault path] is [None] when a write to [path] succeeds. *)
Variable writeFault : string -> option (failedWrite (manifestData Value)).
Variable localeCompare : string -> string -> comparison.

Definition FileSystem : Type := string -> fileState (manifestData Value).

(** The files and the module variable [historicalCommitsCache]. *)
Record State : Type := mkState
  { files : FileSystem;
    historicalCommitsCache : option snapshotData }.

Definition putFile (path : string) (state : fileState (manifestData Value))
  (fs : FileSystem) : FileSystem :=
  fun p => if String.eqb p path then state else fs p.

(** [manifest.authors = authors], which throws on null and, the script
    being a module, on a primitive, followed by what
    [JSON.stringify(manifest, null, 2)] keeps: all own properties of an
    object, and of an array its elements alone. *)
Definition withAuthors (authors : Value) (manifest : manifestData Value)
  : outcome (manifestData Value) :=
  match manifest with
  | ManifestObject fields =>
      Returns (ManifestObject (JsMap.set "authors" authors fields))
  | ManifestArray items => Returns (ManifestArray items)
  | ManifestOther => Throws
  end.

(** [fs.writeFileSync(path, text)], where [text] parses to [content]. *)
Definition writeFileSync (path : string) (content : manifestData Value)
  (fs : FileSystem) : outcome unit * FileSystem :=
  match writeFault path with
  | None => (Returns tt, putFile path (Present (Returns content)) fs)
  | Some LeavesFile => (Throws, fs)
  | Some (LeavesState state) => (Throws, putFile path state fs)
  end.

Definition processManifest (env : Env) (st : State)
  (extDir extensionPath : string) : outcome bool * State :=
  let manifestPath := pathJoin extDir "manifest.json" in
  match files st manifestPath with
  | Absent => (Returns false, st)
  | Present Throws => (Throws, st)
  | Present (Returns manifest) =>
      match getAuthors localeCompare env (historicalCommitsCache st)
              extensionPath with
      | (Returns authors, cache) =>
          match withAuthors (encodeAuthors authors) manifest with
          | Returns manifest' =>
              match writeFileSync manifestPath manifest' (files st) with
              | (Returns _, fs) => (Returns true, mkState fs cache)
              | (Throws, fs) => (Throws, mkState fs cache)
              end
          | Throws => (Throws, mkState (files st) cache)
          end
      | (Throws, cache) => (Throws, mkState (files st) cache)
      end
  end.
End Manifests.
Arguments files {Value} s.
Arguments historicalCommitsCache {Value} s.
Arguments mkState {Value} files historicalCommitsCache.

(** ** Sample files *)



(** * scripts/generate-build-report.ts *)

(** ** escapeHtml *)

(** [str.replace(/c/g, by)] for a pattern of one character and a
    replacement without ['$']. *)
Fixpoint replaceAll (c : ascii) (by_ : string) (str : string) : string :=
  match str with
  | EmptyString => EmptyString
  | String x rest =>
      if Ascii.eqb x c then String.append by_ (replaceAll c by_ rest)
      else String x (replaceAll c by_ rest)
  end.

Definition escapeHtml (str : string) : string :=
  replaceAll "'" "&#039;"
    (replaceAll "034" "&quot;"
       (replaceAll ">" "&gt;"
          (replaceAll "<" "&lt;"
             (replaceAll "&" "&amp;" str)))).

(** What becomes of one character. *)
Definition escapeChar (x : ascii) : string :=
  if Ascii.eqb x "&" then "&amp;"
  else if Ascii.eqb x "<" then "&lt;"
  else if Ascii.eqb x ">" then "&gt;"
  else if Ascii.eqb x "034" then "&quot;"
  else if Ascii.eqb x "'" then "&#039;"
  else String x EmptyString.

Fixpoint flatMapString (f : ascii -> string) (s : string) : string :=
  match s with
  | EmptyString => EmptyString
  | String x rest => String.append (f x) (flatMapString f rest)
  end.

Definition isMarkup (x : ascii) : bool :=
  Ascii.eqb x "<" || Ascii.eqb x ">" || Ascii.eqb x "034" || Ascii.eqb x "'".

Definition hasMarkup (s : string) : bool :=
  existsb isMarkup (list_ascii_of_string s).

Definition hasSpecial (s : string) : bool :=
  existsb (fun x => isMarkup x || Ascii.eqb x "&") (list_ascii_of_string s).

(** ** The summary of the report

    Numbers hold integers and are [Z]; an optional field is an [option]. *)

Module Status.
Inductive t : Type := success | failed | skipped.
End Status.

Module TestResult.
Record t := mk { test : string; passed : bool; error : option string }.
End TestResult.

Module TestSummary.
Record t := mk { passed : option Z; failed : option Z; total : option Z }.
End TestSummary.

Module TestRun.
Record t := mk
  { summary : option TestSummary.t; results : option (list TestResult.t) }.
End TestRun.

Module ExtensionResult.
Record t := mk
  { id : string; status : Status.t; buildTimeMs : option Z;
    test : option TestRun.t; error : option string }.
End ExtensionResult.

Module Summary.
Record t := mk
  { total : Z; built : Z; failed : Z; skipped : Z; tested : Z; passed : Z;
    testFailed : Z }.
End Summary.

(** [allExtensions.filter(p).length]. *)
Definition countIf (p : ExtensionResult.t -> bool)
  (allExtensions : list ExtensionResult.t) : Z :=
  Z.of_nat (List.length (filter p allExtensions)).

Definition hasStatus (s : Status.t) (e : ExtensionResult.t) : bool :=
  match ExtensionResult.status e, s with
  | Status.success, Status.success => true
  | Status.failed, Status.failed => true
  | Status.skipped, Status.skipped => true
  | _, _ => false
  end.

(** [e.test?.results] as a condition. *)
Definition hasResults (e : ExtensionResult.t) : bool :=
  match ExtensionResult.test e with
  | Some t => match TestRun.results t with Some _ => true | None => false end
  | None => false
  end.

(** [e.test?.summary?.failed === 0]. *)
Definition noTestFailed (e : ExtensionResult.t) : bool :=
  match ExtensionResult.test e with
  | Some t =>
      match TestRun.summary t with
      | Some s =>
          match TestSummary.failed s with
          | Some n => Z.eqb n 0
          | None => false
          end
      | None => false
      end
  | None => false
  end.

(** [e.test?.summary && e.test.summary.failed! > 0]. *)
Definition someTestFailed (e : ExtensionResult.t) : bool :=
  match ExtensionResult.test e with
  | Some t =>
      match TestRun.summary t with
      | Some s =>
          match TestSummary.failed s with
          | Some n => Z.ltb 0 n
          | None => false
          end
      | None => false
      end
  | None => false
  end.

Definition summaryOf (allExtensions : list ExtensionResult.t) : Summary.t :=
  Summary.mk
    (Z.of_nat (List.length allExtensions))
    (countIf (hasStatus Status.success) allExtensions)
    (countIf (hasStatus Status.failed) allExtensions)
    (countIf (hasStatus Status.skipped) allExtensions)
    (countIf hasResults allExtensions)
    (countIf noTestFailed allExtensions)
    (countIf someTestFailed allExtensions).

(** [allExtensions.reduce((sum, e) => sum + (e.buildTimeMs ?? 0), 0)]. *)
Definition totalBuildTimeMs (allExtensions : list ExtensionResult.t) : Z :=
  fold_left
    (fun sum e =>
       sum + match ExtensionResult.buildTimeMs e with
             | Some ms => ms
             | None => 0
             end)
    allExtensions 0.

(** The two numbers of [durationStr]: [Math.floor(t / 60000)] and
    [Math.floor((t % 60000) / 1000)], with the remainder of JavaScript,
    which has the sign of [t]. *)
Definition durationMinutes (t : Z) : Z := t / 60000.
Definition durationSeconds (t : Z) : Z := Z.rem t 60000 / 1000.

Definition buildTimeOf (e : ExtensionResult.t) : Z :=
  match ExtensionResult.buildTimeMs e with Some ms => ms | None => 0 end.

Definition sampleExtensions : list ExtensionResult.t :=
  [ExtensionResult.mk "en/mangapill" Status.success (Some 61500)
     (Some (TestRun.mk (Some (TestSummary.mk (Some 7) (Some 0) (Some 7)))
              (Some [TestResult.mk "popular" true None])))
     None;
   ExtensionResult.mk "all/ahottie" Status.failed None None
     (Some "compile error")].

(** * Properties *)

(** ** The order of strings *)

Lemma compare_refl (a : string) : String.compare a a = Eq.
Proof. apply String_as_OT.cmp_eq. reflexivity. Qed.

Lemma dateLe_refl (a : string) : dateLe a a.
Proof. unfold dateLe, String.leb. now rewrite compare_refl. Qed.

Lemma ltb_leb (a b : string) : String.ltb a b = negb (String.leb b a).
Proof.
  unfold String.ltb, String.leb. rewrite (String.compare_antisym b a).
  now destruct (String.compare a b).
Qed.

Lemma dateLt_le (a b : string) : dateLt a b -> dateLe a b.
Proof.
  unfold dateLt, dateLe, String.ltb, String.leb.
  now destruct (String.compare a b).
Qed.

Lemma not_ltb_le (a b : string) : String.ltb a b = false -> dateLe b a.
Proof.
  rewrite ltb_leb. unfold dateLe. now destruct (String.leb b a).
Qed.

Lemma compare_Lt_trans (a b c : string) :
  String.compare a b = Lt -> String.compare b c = Lt ->
  String.compare a c = Lt.
Proof.
  intros Hab Hbc. apply String_as_OT.cmp_lt.
  apply String_as_OT.lt_trans with b; now apply String_as_OT.cmp_lt.
Qed.

Lemma dateLe_trans (a b c : string) : dateLe a b -> dateLe b c -> dateLe a c.
Proof.
  unfold dateLe, String.leb. intros Hab Hbc.
  destruct (String.compare a b) eqn:Eab; try discriminate;
    destruct (String.compare b c) eqn:Ebc; try discriminate.
  - apply String_as_OT.cmp_eq in Eab, Ebc. subst. now rewrite compare_refl.
  - apply String_as_OT.cmp_eq in Eab. subst. now rewrite Ebc.
  - apply String_as_OT.cmp_eq in Ebc. subst. now rewrite Eab.
  - now rewrite (compare_Lt_trans a b c).
Qed.

Lemma dateLt_le_trans (a b c : string) :
  dateLt a b -> dateLe b c -> dateLt a c.
Proof.
  unfold dateLt, dateLe, String.ltb, String.leb. intros Hab Hbc.
  destruct (String.compare a b) eqn:Eab; try discriminate.
  destruct (String.compare b c) eqn:Ebc; try discriminate.
  - apply String_as_OT.cmp_eq in Ebc. subst. now rewrite Eab.
  - now rewrite (compare_Lt_trans a b c).
Qed.

Lemma dateLe_antisym (a b : string) : dateLe a b -> dateLe b a -> a = b.
Proof. apply String.leb_antisym. Qed.

(** ** The map *)

Module JsMapFacts.
Section Facts.
Context {V : Type}.
Implicit Types (m : JsMap.t V) (k : string) (v : V).

Lemma get_set_eq k v m : JsMap.get k (JsMap.set k v m) = Some v.
Proof.
    induction m as [|[k' v'] m IH]; simpl.
    - now rewrite String.eqb_refl.
    - destruct (String.eqb k k') eqn:E; simpl.
      + now rewrite String.eqb_refl.
      + now rewrite E.
Qed.

Lemma get_set_ne k k' v m :
    k <> k' -> JsMap.get k' (JsMap.set k v m) = JsMap.get k' m.
Proof.
    intros Hne. induction m as [|[k0 v0] m IH]; simpl.
    - destruct (String.eqb_spec k' k); congruence.
    - destruct (String.eqb_spec k k0) as [->|Hk]; simpl.
      + destruct (String.eqb_spec k' k0); congruence.
      + now rewrite IH.
Qed.

Lemma get_None k m : JsMap.get k m = None <-> ~ In k (JsMap.keys m).
Proof.
    induction m as [|[k' v'] m IH]; simpl.
    - tauto.
    - destruct (String.eqb_spec k k') as [->|Hk].
      + split; [discriminate | tauto].
      + rewrite IH. split; [intros H [E|I]; congruence | tauto].
Qed.

Lemma get_In k v m : JsMap.get k m = Some v -> In (k, v) m.
Proof.
    induction m as [|[k' v'] m IH]; simpl; [discriminate|].
    destruct (String.eqb_spec k k') as [->|Hk].
    - intros [= ->]. now left.
    - intros H. right. now apply IH.
Qed.

Lemma In_get k v m : NoDup (JsMap.keys m) -> In (k, v) m -> JsMap.get k m = Some v.
Proof.
    induction m as [|[k' v'] m IH]; simpl; [tauto|].
    intros Hnd [[= -> ->]|Hin].
    - now rewrite String.eqb_refl.
    - inversion Hnd as [|? ? Hk Hnd']; subst.
      destruct (String.eqb_spec k k') as [->|Hne].
      + exfalso. apply Hk. change (In k' (map fst m)).
        now apply (in_map fst) in Hin.
      + now apply IH.
Qed.

Lemma set_present k v v0 m :
    JsMap.get k m = Some v0 -> JsMap.keys (JsMap.set k v m) = JsMap.keys m.
Proof.
    induction m as [|[k' v'] m IH]; simpl; [discriminate|].
    destruct (String.eqb_spec k k') as [->|Hk]; simpl.
    - reflexivity.
    - intros H. f_equal. now apply IH.
Qed.

Lemma set_absent k v m :
    JsMap.get k m = None -> JsMap.set k v m = m ++ [(k, v)].
Proof.
    induction m as [|[k' v'] m IH]; simpl; [reflexivity|].
    destruct (String.eqb_spec k k') as [->|Hk]; [discriminate|].
    intros H. f_equal. now apply IH.
Qed.

Lemma In_keys_set k k' v m :
    In k' (JsMap.keys (JsMap.set k v m)) <-> k' = k \/ In k' (JsMap.keys m).
Proof.
    destruct (JsMap.get k m) as [v0|] eqn:E.
    - rewrite (set_present _ _ _ _ E). split; [tauto|].
      intros [->|H]; [|exact H].
      destruct (in_dec string_dec k (JsMap.keys m)) as [I|N]; [exact I|].
      apply get_None in N. congruence.
    - rewrite (set_absent _ _ _ E). unfold JsMap.keys.
      rewrite map_app, in_app_iff. simpl. intuition.
Qed.

Lemma NoDup_keys_set k v m :
    NoDup (JsMap.keys m) -> NoDup (JsMap.keys (JsMap.set k v m)).
Proof.
    intros Hnd. destruct (JsMap.get k m) as [v0|] eqn:E.
    - now rewrite (set_present _ _ _ _ E).
    - rewrite (set_absent _ _ _ E). unfold JsMap.keys. rewrite map_app.
      simpl. apply get_None in E.
      apply (Permutation_NoDup (Permutation_cons_append (map fst m) k)).
      now constructor.
Qed.
End Facts.
End JsMapFacts.

(** ** Folding records into a map *)

Section UpsertFacts.
Context {A V : Type}.
Variable key : A -> string.
Variable init : A -> V.
Variable merge : V -> A -> V.

Local Abbreviation put := (upsert key init merge).
Local Abbreviation acc := (accum init merge).
Local Abbreviation grp := (group key).

Lemma get_upsert (k : string) (m : JsMap.t V) (x : A) :
  JsMap.get k (put m x) =
  if String.eqb (key x) k then acc (JsMap.get k m) x else JsMap.get k m.
Proof.
  unfold upsert, accum.
  destruct (String.eqb_spec (key x) k) as [<-|Hne].
  - destruct (JsMap.get (key x) m); now rewrite JsMapFacts.get_set_eq.
  - destruct (JsMap.get (key x) m); now rewrite JsMapFacts.get_set_ne.
Qed.

Lemma get_fold_upsert (k : string) (l : list A) :
  forall m, JsMap.get k (fold_left put l m) =
            fold_left acc (grp k l) (JsMap.get k m).
Proof.
  induction l as [|x l IH]; intros m; simpl; [reflexivity|].
  rewrite IH, get_upsert. unfold group. simpl.
  now destruct (String.eqb (key x) k).
Qed.

Lemma fold_accum_Some (xs : list A) :
  forall v, fold_left acc xs (Some v) = Some (fold_left merge xs v).
Proof. induction xs as [|x xs IH]; intros v; simpl; [reflexivity|apply IH]. Qed.

Lemma fold_accum_None (xs : list A) :
  fold_left acc xs None =
  match xs with
  | [] => None
  | x :: xs' => Some (fold_left merge xs' (init x))
  end.
Proof. destruct xs as [|x xs]; simpl; [reflexivity|apply fold_accum_Some]. Qed.

Lemma In_keys_upsert (k : string) (m : JsMap.t V) (x : A) :
  In k (JsMap.keys (put m x)) <-> k = key x \/ In k (JsMap.keys m).
Proof.
  unfold upsert.
  destruct (JsMap.get (key x) m); apply JsMapFacts.In_keys_set.
Qed.

Lemma In_keys_fold_upsert (k : string) (l : list A) :
  forall m, In k (JsMap.keys (fold_left put l m)) <->
            In k (JsMap.keys m) \/ In k (map key l).
Proof.
  induction l as [|x l IH]; intros m; simpl; [tauto|].
  rewrite IH, In_keys_upsert. intuition.
Qed.

Lemma NoDup_keys_upsert (m : JsMap.t V) (x : A) :
  NoDup (JsMap.keys m) -> NoDup (JsMap.keys (put m x)).
Proof.
  unfold upsert.
  destruct (JsMap.get (key x) m); apply JsMapFacts.NoDup_keys_set.
Qed.

Lemma NoDup_keys_fold_upsert (l : list A) :
  forall m, NoDup (JsMap.keys m) -> NoDup (JsMap.keys (fold_left put l m)).
Proof.
  induction l as [|x l IH]; intros m Hm; simpl; [exact Hm|].
  apply IH. now apply NoDup_keys_upsert.
Qed.

(** An entry of the folded map is the merge of its group. *)
Lemma entry_fold_upsert (l : list A) (k : string) (v : V) :
  In (k, v) (fold_left put l JsMap.empty) <->
  exists x xs, grp k l = x :: xs /\ v = fold_left merge xs (init x).
Proof.
  assert (Hnd : NoDup (JsMap.keys (fold_left put l JsMap.empty)))
    by (apply NoDup_keys_fold_upsert; constructor).
  assert (Hget := get_fold_upsert k l JsMap.empty). simpl in Hget.
  rewrite fold_accum_None in Hget.
  split.
  - intros Hin. apply (JsMapFacts.In_get _ _ _ Hnd) in Hin.
    rewrite Hin in Hget. destruct (grp k l) as [|x xs]; [discriminate|].
    exists x, xs. split; [reflexivity|]. congruence.
  - intros (x & xs & Hg & ->). rewrite Hg in Hget.
    now apply JsMapFacts.get_In.
Qed.
End UpsertFacts.

Section SumFacts.
Context {A V : Type}.
Variable key : A -> string.
Variable init : A -> V.
Variable merge : V -> A -> V.
Variable f : V -> Z.
Variable w : A -> Z.
Hypothesis f_init : forall x, f (init x) = w x.
Hypothesis f_merge : forall v x, f (merge v x) = f v + w x.

Lemma sumZ_set (k : string) (v : V) (m : JsMap.t V) :
  sumZ f (JsMap.values (JsMap.set k v m)) =
  sumZ f (JsMap.values m) + f v
  - match JsMap.get k m with Some o => f o | None => 0 end.
Proof.
  induction m as [|[k' v'] m IH]; simpl; [lia|].
  destruct (String.eqb k k'); simpl; [lia|]. rewrite IH. lia.
Qed.

Lemma sumZ_upsert (m : JsMap.t V) (x : A) :
  sumZ f (JsMap.values (upsert key init merge m x)) =
  sumZ f (JsMap.values m) + w x.
Proof.
  unfold upsert. destruct (JsMap.get (key x) m) as [v|] eqn:E;
    rewrite sumZ_set, E; [rewrite f_merge | rewrite f_init]; lia.
Qed.

Lemma sumZ_fold_upsert (l : list A) :
  forall m, sumZ f (JsMap.values (fold_left (upsert key init merge) l m)) =
            sumZ f (JsMap.values m) + sumZ w l.
Proof.
  induction l as [|x l IH]; intros m; simpl; [lia|].
  rewrite IH, sumZ_upsert. lia.
Qed.
End SumFacts.

Lemma sumZ_app {X : Type} (f : X -> Z) (l1 l2 : list X) :
  sumZ f (l1 ++ l2) = sumZ f l1 + sumZ f l2.
Proof. induction l1 as [|x l1 IH]; simpl; [reflexivity|rewrite IH; lia]. Qed.

Lemma sumZ_Permutation {X : Type} (f : X -> Z) (l1 l2 : list X) :
  Permutation l1 l2 -> sumZ f l1 = sumZ f l2.
Proof. induction 1; simpl; lia. Qed.

(** ** The loops of [getAuthors] as folds of [upsert] *)

Lemma mergeKeiyoushi_upsert (m : JsMap.t ContributorData.t)
  (c : ContributorData.t) :
  mergeKeiyoushi m c = upsert ContributorData.email (fun x => x) addLive m c.
Proof. reflexivity. Qed.

Lemma dedupe_upsert (m : JsMap.t AuthorOutput.t) (c : ContributorData.t) :
  dedupe m c = upsert recordKey newIdentity mergeIdentity m c.
Proof. reflexivity. Qed.

Lemma fold_left_ext {X Y : Type} (f g : X -> Y -> X) (l : list Y) :
  (forall x y, f x y = g x y) ->
  forall x, fold_left f l x = fold_left g l x.
Proof.
  intros H. induction l as [|y l IH]; intros x; simpl; [reflexivity|].
  now rewrite H, IH.
Qed.

Lemma byIdentity_upsert (records : list ContributorData.t) :
  byIdentity records =
  fold_left (upsert recordKey newIdentity mergeIdentity) records JsMap.empty.
Proof. apply fold_left_ext, dedupe_upsert. Qed.

(** With addresses unique in the historical source no [set] of the first
    loop overwrites, and the two loops are one fold. *)
Lemma mergeHistorical_fresh (l : list ContributorData.t) :
  forall m, NoDup (emails l) ->
            (forall c, In c l -> ~ In (ContributorData.email c) (JsMap.keys m)) ->
            fold_left mergeHistorical l m = fold_left mergeKeiyoushi l m.
Proof.
  induction l as [|c l IH]; intros m Hnd Hfresh; simpl; [reflexivity|].
  inversion Hnd as [|? ? Hc Hnd']; subst.
  assert (Hget : JsMap.get (ContributorData.email c) m = None)
    by (apply JsMapFacts.get_None, Hfresh; now left).
  assert (Hstep : mergeKeiyoushi m c = mergeHistorical m c)
    by (unfold mergeKeiyoushi, mergeHistorical; now rewrite Hget).
  rewrite Hstep. apply IH; [exact Hnd'|].
  intros c' Hin Hk. unfold mergeHistorical in Hk.
  apply JsMapFacts.In_keys_set in Hk. destruct Hk as [Hk|Hk].
  - apply Hc. unfold emails. rewrite <- Hk. now apply in_map.
  - apply (Hfresh c'); [now right|exact Hk].
Qed.

Lemma byEmail_upsert (historical keiyoushi : list ContributorData.t) :
  NoDup (emails historical) ->
  byEmail historical keiyoushi =
  fold_left (upsert ContributorData.email (fun x => x) addLive)
    (historical ++ keiyoushi) JsMap.empty.
Proof.
  intros Hnd. unfold byEmail. rewrite fold_left_app.
  rewrite (mergeHistorical_fresh historical JsMap.empty Hnd)
    by (intros c _ []).
  reflexivity.
Qed.

(** ** The sort rearranges *)

Section SortFacts.
Variable localeCompare : string -> string -> comparison.

Lemma insertAuthor_Permutation (a : AuthorOutput.t) (l : list AuthorOutput.t) :
  Permutation (insertAuthor localeCompare a l) (a :: l).
Proof.
  induction l as [|b l IH]; simpl; [reflexivity|].
  destruct (compareAuthors localeCompare a b); try reflexivity.
  rewrite IH. apply perm_swap.
Qed.

Lemma sortAuthors_Permutation (l : list AuthorOutput.t) :
  Permutation (sortAuthors localeCompare l) l.
Proof.
  induction l as [|a l IH]; simpl; [reflexivity|].
  rewrite insertAuthor_Permutation. now constructor.
Qed.

Lemma In_getAuthorsFrom (historical keiyoushi : list ContributorData.t)
  (a : AuthorOutput.t) :
  In a (getAuthorsFrom localeCompare historical keiyoushi) <->
  exists k, In (k, a)
              (byIdentity (JsMap.values (byEmail historical keiyoushi))).
Proof.
  unfold getAuthorsFrom. split.
  - intros Hin.
    apply (Permutation_in _ (sortAuthors_Permutation _)) in Hin.
    unfold JsMap.values in Hin. apply in_map_iff in Hin.
    destruct Hin as ([k a'] & <- & Hin). now exists k.
  - intros [k Hin].
    apply (Permutation_in _ (Permutation_sym (sortAuthors_Permutation _))).
    unfold JsMap.values. apply in_map_iff. now exists (k, a).
Qed.
End SortFacts.

(** ** Totals *)

Lemma total_byEmail (historical keiyoushi : list ContributorData.t) :
  NoDup (emails historical) ->
  sumZ ContributorData.commits (JsMap.values (byEmail historical keiyoushi)) =
  sumZ ContributorData.commits historical
  + sumZ ContributorData.commits keiyoushi.
Proof.
  intros Hnd. rewrite (byEmail_upsert _ _ Hnd).
  rewrite (sumZ_fold_upsert _ _ _ ContributorData.commits
             ContributorData.commits) by reflexivity.
  simpl. now rewrite sumZ_app.
Qed.

Lemma total_byIdentity (records : list ContributorData.t) :
  sumZ AuthorOutput.commits (JsMap.values (byIdentity records)) =
  sumZ ContributorData.commits records.
Proof.
  rewrite byIdentity_upsert.
  rewrite (sumZ_fold_upsert _ _ _ AuthorOutput.commits
             ContributorData.commits) by reflexivity.
  reflexivity.
Qed.

(** C2. With addresses unique within each source, the commit counts of
    the authors returned by [getAuthors] add up to the commit counts of
    all input records of both sources; hence two ways of dividing the same
    records between the historical and the live source give the same total. *)
Theorem getAuthors_total_commits
  (localeCompare : string -> string -> comparison)
  (historical keiyoushi : list ContributorData.t) :
  NoDup (emails historical) ->
  NoDup (emails keiyoushi) ->
  sumZ AuthorOutput.commits (getAuthorsFrom localeCompare historical keiyoushi)
  = sumZ ContributorData.commits (historical ++ keiyoushi)
  /\ forall historical' keiyoushi',
       NoDup (emails historical') ->
       NoDup (emails keiyoushi') ->
       Permutation (historical' ++ keiyoushi') (historical ++ keiyoushi) ->
       sumZ AuthorOutput.commits
         (getAuthorsFrom localeCompare historical' keiyoushi')
       = sumZ AuthorOutput.commits
           (getAuthorsFrom localeCompare historical keiyoushi).
Proof.
  intros Hh _.
  assert (Htotal : forall h k, NoDup (emails h) ->
            sumZ AuthorOutput.commits (getAuthorsFrom localeCompare h k)
            = sumZ ContributorData.commits (h ++ k)).
  { intros h k Hnd. unfold getAuthorsFrom.
    rewrite (sumZ_Permutation _ _ _ (sortAuthors_Permutation _ _)).
    now rewrite total_byIdentity, total_byEmail, sumZ_app. }
  split; [now apply Htotal|].
  intros h' k' Hh' _ Hperm.
  rewrite (Htotal h' k' Hh'), (Htotal _ _ Hh).
  now apply sumZ_Permutation.
Qed.

(** ** Minimum of the dates of a group *)

Lemma In_group {A : Type} (key : A -> string) (k : string) (l : list A) (x : A) :
  In x (group key k l) <-> In x l /\ key x = k.
Proof.
  unfold group. rewrite filter_In.
  destruct (String.eqb_spec (key x) k); intuition congruence.
Qed.

Lemma group_app {A : Type} (key : A -> string) (k : string) (l1 l2 : list A) :
  group key k (l1 ++ l2) = group key k l1 ++ group key k l2.
Proof. apply filter_app. Qed.

Lemma dateLt_trans (a b c : string) : dateLt a b -> dateLt b c -> dateLt a c.
Proof. intros Hab Hbc. eapply dateLt_le_trans; eauto using dateLt_le. Qed.

Section MinFacts.
Context {A V : Type}.
Variable merge : V -> A -> V.
Variable dV : V -> string.
Variable dA : A -> string.
Hypothesis d_merge :
  forall v x, dV (merge v x) = if String.ltb (dA x) (dV v) then dA x else dV v.

Lemma fold_merge_lower (xs : list A) :
  forall v, dateLe (dV (fold_left merge xs v)) (dV v)
            /\ forall x, In x xs -> dateLe (dV (fold_left merge xs v)) (dA x).
Proof.
  induction xs as [|x xs IH]; intros v; simpl.
  - split; [apply dateLe_refl | tauto].
  - destruct (IH (merge v x)) as [Hv Hxs]. rewrite d_merge in Hv.
    destruct (String.ltb (dA x) (dV v)) eqn:E.
    + split; [eapply dateLe_trans; [exact Hv|now apply dateLt_le]|].
      intros y [<-|Hy]; [exact Hv|now apply Hxs].
    + apply not_ltb_le in E.
      split; [exact Hv|].
      intros y [<-|Hy]; [eapply dateLe_trans; eauto|now apply Hxs].
Qed.

Lemma fold_merge_attained (xs : list A) :
  forall v, dV (fold_left merge xs v) = dV v
            \/ exists x, In x xs /\ dV (fold_left merge xs v) = dA x.
Proof.
  induction xs as [|x xs IH]; intros v; simpl; [now left|].
  destruct (IH (merge v x)) as [Hv|(y & Hy & Hd)].
  - rewrite d_merge in Hv. destruct (String.ltb (dA x) (dV v)).
    + right. exists x. auto.
    + now left.
  - right. exists y. auto.
Qed.

Variable init : A -> V.
Hypothesis d_init : forall x, dV (init x) = dA x.

Lemma fold_merge_isMin (x : A) (xs : list A) :
  isMinDate (dV (fold_left merge xs (init x))) (map dA (x :: xs)).
Proof.
  split.
  - destruct (fold_merge_attained xs (init x)) as [H|(y & Hy & H)];
      rewrite H.
    + rewrite d_init. now left.
    + right. now apply in_map.
  - intros d' Hd'. destruct (fold_merge_lower xs (init x)) as [Hv Hxs].
    rewrite d_init in Hv. simpl in Hd'. destruct Hd' as [<-|Hd']; [exact Hv|].
    apply in_map_iff in Hd'. destruct Hd' as (y & <- & Hy). now apply Hxs.
Qed.

(** The name travels with the date: the merged entry carries the name
    and date of the first record of its group that has the least date. *)
Variable nV : V -> string.
Variable nA : A -> string.
Hypothesis n_merge :
  forall v x, nV (merge v x) = if String.ltb (dA x) (dV v) then nA x else nV v.
Hypothesis n_init : forall x, nV (init x) = nA x.

Lemma fold_merge_first_min (x : A) (xs : list A) :
  exists g1 c g2,
    x :: xs = g1 ++ c :: g2
    /\ nV (fold_left merge xs (init x)) = nA c
    /\ dV (fold_left merge xs (init x)) = dA c
    /\ (forall y, In y g1 -> dateLt (dA c) (dA y))
    /\ (forall y, In y g2 -> dateLe (dA c) (dA y)).
Proof.
  induction xs as [|z xs IH] using rev_ind.
  - exists [], x, []. simpl. rewrite n_init, d_init. intuition.
  - destruct IH as (g1 & c & g2 & Hsplit & Hn & Hd & Hlt & Hle).
    rewrite fold_left_app. simpl. rewrite n_merge, d_merge, Hd, Hn.
    destruct (String.ltb (dA z) (dA c)) eqn:E.
    + exists (x :: xs), z, []. repeat split; try reflexivity; try tauto.
      * intros y Hy. rewrite Hsplit in Hy. apply in_app_iff in Hy.
        destruct Hy as [Hy|[<-|Hy]].
        -- eapply dateLt_trans; [exact E|now apply Hlt].
        -- exact E.
        -- eapply dateLt_le_trans; [exact E|now apply Hle].
      * intros y [].
    + exists g1, c, (g2 ++ [z]). repeat split; try assumption.
      * change (x :: xs ++ [z]) with ((x :: xs) ++ [z]).
        rewrite Hsplit, <- app_assoc. reflexivity.
      * intros y Hy. apply in_app_iff in Hy. destruct Hy as [Hy|[<-|[]]].
        -- now apply Hle.
        -- now apply not_ltb_le.
Qed.
End MinFacts.

Lemma isMinDate_unique (d d' : string) (ds ds' : list string) :
  (forall x, In x ds <-> In x ds') ->
  isMinDate d ds -> isMinDate d' ds' -> d = d'.
Proof.
  intros Heq [Hin Hle] [Hin' Hle']. apply dateLe_antisym.
  - apply Hle. now apply Heq.
  - apply Hle'. now apply Heq.
Qed.

(** ** The entries of the two maps *)

Lemma byEmail_entry (historical keiyoushi : list ContributorData.t)
  (e : string) (r : ContributorData.t) :
  NoDup (emails historical) ->
  In (e, r) (byEmail historical keiyoushi) <->
  exists y ys,
    group ContributorData.email e (historical ++ keiyoushi) = y :: ys
    /\ r = fold_left addLive ys y.
Proof.
  intros Hnd. rewrite (byEmail_upsert _ _ Hnd).
  apply (entry_fold_upsert ContributorData.email (fun x => x) addLive).
Qed.

Lemma byIdentity_entry (records : list ContributorData.t)
  (k : string) (a : AuthorOutput.t) :
  In (k, a) (byIdentity records) <->
  exists x xs,
    group recordKey k records = x :: xs
    /\ a = fold_left mergeIdentity xs (newIdentity x).
Proof. rewrite byIdentity_upsert. apply entry_fold_upsert. Qed.

Lemma email_fold_addLive (xs : list ContributorData.t) :
  forall x, ContributorData.email (fold_left addLive xs x)
            = ContributorData.email x.
Proof.
  induction xs as [|y xs IH]; intros x; simpl; [reflexivity|].
  now rewrite IH.
Qed.

Lemma name_fold_addLive (xs : list ContributorData.t) :
  forall x, ContributorData.name (fold_left addLive xs x)
            = ContributorData.name x.
Proof.
  induction xs as [|y xs IH]; intros x; simpl; [reflexivity|].
  now rewrite IH.
Qed.

Lemma commits_fold_addLive (xs : list ContributorData.t) :
  forall x, ContributorData.commits (fold_left addLive xs x)
            = ContributorData.commits x + sumZ ContributorData.commits xs.
Proof.
  induction xs as [|y xs IH]; intros x; simpl; [lia|].
  rewrite IH. simpl. lia.
Qed.

Lemma group_head {A : Type} (key : A -> string) (k : string) (l : list A)
  (x : A) (xs : list A) :
  group key k l = x :: xs -> In x l /\ key x = k.
Proof.
  intros H. apply (In_group key k l x). rewrite H. now left.
Qed.

Lemma byEmail_keyed (historical keiyoushi : list ContributorData.t)
  (e : string) (r : ContributorData.t) :
  NoDup (emails historical) ->
  In (e, r) (byEmail historical keiyoushi) -> ContributorData.email r = e.
Proof.
  intros Hnd Hin. apply (byEmail_entry _ _ _ _ Hnd) in Hin.
  destruct Hin as (y & ys & Hg & ->). rewrite email_fold_addLive.
  now apply group_head in Hg.
Qed.

Lemma In_mergeSources (historical keiyoushi : list ContributorData.t)
  (r : ContributorData.t) :
  In r (mergeSources historical keiyoushi) <->
  exists e, In (e, r) (byEmail historical keiyoushi).
Proof.
  unfold mergeSources, JsMap.values. rewrite in_map_iff. split.
  - intros ([e r'] & <- & Hin). now exists e.
  - intros [e Hin]. now exists (e, r).
Qed.

(** Every address of the input has an entry in [byEmail]. *)
Lemma byEmail_covers (historical keiyoushi : list ContributorData.t)
  (c : ContributorData.t) :
  NoDup (emails historical) ->
  In c (historical ++ keiyoushi) ->
  exists r, In (ContributorData.email c, r) (byEmail historical keiyoushi).
Proof.
  intros Hnd Hin.
  assert (Hg : In c (group ContributorData.email (ContributorData.email c)
                       (historical ++ keiyoushi)))
    by now apply In_group.
  destruct (group ContributorData.email (ContributorData.email c)
              (historical ++ keiyoushi)) as [|y ys] eqn:E; [destruct Hg|].
  exists (fold_left addLive ys y). apply (byEmail_entry _ _ _ _ Hnd).
  now exists y, ys.
Qed.

Lemma byIdentity_covers (records : list ContributorData.t)
  (c : ContributorData.t) :
  In c records -> exists a, In (recordKey c, a) (byIdentity records).
Proof.
  intros Hin.
  assert (Hg : In c (group recordKey (recordKey c) records))
    by now apply In_group.
  destruct (group recordKey (recordKey c) records) as [|y ys] eqn:E;
    [destruct Hg|].
  exists (fold_left mergeIdentity ys (newIdentity y)).
  apply byIdentity_entry. now exists y, ys.
Qed.

(** ** First seen dates *)

Lemma addLive_date (v x : ContributorData.t) :
  ContributorData.firstCommit (addLive v x) =
  if String.ltb (ContributorData.firstCommit x) (ContributorData.firstCommit v)
  then ContributorData.firstCommit x else ContributorData.firstCommit v.
Proof. reflexivity. Qed.

Lemma mergeIdentity_date (v : AuthorOutput.t) (x : ContributorData.t) :
  AuthorOutput.firstCommit (mergeIdentity v x) =
  if String.ltb (ContributorData.firstCommit x) (AuthorOutput.firstCommit v)
  then ContributorData.firstCommit x else AuthorOutput.firstCommit v.
Proof. reflexivity. Qed.

Lemma address_date_isMin (historical keiyoushi : list ContributorData.t)
  (e : string) (r : ContributorData.t) :
  NoDup (emails historical) ->
  In (e, r) (byEmail historical keiyoushi) ->
  isMinDate (ContributorData.firstCommit r)
    (datesOfAddress e (historical ++ keiyoushi)).
Proof.
  intros Hnd Hin. apply (byEmail_entry _ _ _ _ Hnd) in Hin.
  destruct Hin as (y & ys & Hg & ->). unfold datesOfAddress. rewrite Hg.
  apply (fold_merge_isMin addLive ContributorData.firstCommit
           ContributorData.firstCommit addLive_date (fun x => x)).
  reflexivity.
Qed.

Lemma identity_date_isMin_records (records : list ContributorData.t)
  (k : string) (a : AuthorOutput.t) :
  In (k, a) (byIdentity records) ->
  isMinDate (AuthorOutput.firstCommit a) (datesOfKey k records).
Proof.
  intros Hin. apply byIdentity_entry in Hin.
  destruct Hin as (y & ys & Hg & ->). unfold datesOfKey. rewrite Hg.
  apply (fold_merge_isMin mergeIdentity AuthorOutput.firstCommit
           ContributorData.firstCommit mergeIdentity_date newIdentity).
  reflexivity.
Qed.

Lemma In_datesOfKey (k d : string) (l : list ContributorData.t) :
  In d (datesOfKey k l) <->
  exists c, In c l /\ recordKey c = k /\ ContributorData.firstCommit c = d.
Proof.
  unfold datesOfKey. rewrite in_map_iff. split.
  - intros (c & Hd & Hc). apply In_group in Hc. exists c. tauto.
  - intros (c & Hc & Hk & Hd). exists c. split; [exact Hd|].
    now apply In_group.
Qed.

Lemma In_datesOfAddress (e d : string) (l : list ContributorData.t) :
  In d (datesOfAddress e l) <->
  exists c, In c l /\ ContributorData.email c = e
            /\ ContributorData.firstCommit c = d.
Proof.
  unfold datesOfAddress. rewrite in_map_iff. split.
  - intros (c & Hd & Hc). apply In_group in Hc. exists c. tauto.
  - intros (c & Hc & Hk & Hd). exists c. split; [exact Hd|].
    now apply In_group.
Qed.

Lemma identity_date_isMin (historical keiyoushi : list ContributorData.t)
  (k : string) (a : AuthorOutput.t) :
  NoDup (emails historical) ->
  In (k, a) (byIdentity (mergeSources historical keiyoushi)) ->
  isMinDate (AuthorOutput.firstCommit a)
    (datesOfKey k (historical ++ keiyoushi)).
Proof.
  intros Hnd Hin. apply identity_date_isMin_records in Hin.
  destruct Hin as [Hatt Hlow]. split.
  - apply In_datesOfKey in Hatt. destruct Hatt as (r & Hr & Hk & Hd).
    apply In_mergeSources in Hr. destruct Hr as [e Hr].
    assert (He := byEmail_keyed _ _ _ _ Hnd Hr).
    apply (address_date_isMin _ _ _ _ Hnd) in Hr. destruct Hr as [Hr _].
    apply In_datesOfAddress in Hr. destruct Hr as (c & Hc & Hce & Hcd).
    apply In_datesOfKey. exists c. repeat split; [exact Hc| |congruence].
    unfold recordKey in *. congruence.
  - intros d Hd. apply In_datesOfKey in Hd.
    destruct Hd as (c & Hc & Hk & <-).
    destruct (byEmail_covers _ _ _ Hnd Hc) as [r Hr].
    assert (He := byEmail_keyed _ _ _ _ Hnd Hr).
    apply dateLe_trans with (ContributorData.firstCommit r).
    + apply Hlow. apply In_datesOfKey. exists r. repeat split.
      * apply In_mergeSources. eauto.
      * unfold recordKey in *. congruence.
    + apply (address_date_isMin _ _ _ _ Hnd) in Hr. destruct Hr as [_ Hr].
      apply Hr. apply In_datesOfAddress. now exists c.
Qed.

(** C3. With addresses unique within each source, the date of every
    entry of the per-address map is the least date of the input records of
    that address, and the date of every returned author is the least date
    of the input records of its identity key; so it is not later than the
    date of any input record of the key, and it is the same however the
    records are ordered or divided between the two sources. *)
Theorem firstCommit_is_minimum
  (localeCompare : string -> string -> comparison)
  (historical keiyoushi : list ContributorData.t) :
  NoDup (emails historical) ->
  NoDup (emails keiyoushi) ->
  (forall e r,
      In (e, r) (byEmail historical keiyoushi) ->
      isMinDate (ContributorData.firstCommit r)
        (datesOfAddress e (historical ++ keiyoushi)))
  /\ (forall a,
         In a (getAuthorsFrom localeCompare historical keiyoushi) ->
         exists k,
           In (k, a) (byIdentity (mergeSources historical keiyoushi))
           /\ isMinDate (AuthorOutput.firstCommit a)
                (datesOfKey k (historical ++ keiyoushi)))
  /\ (forall c,
         In c (historical ++ keiyoushi) ->
         exists a,
           In (recordKey c, a) (byIdentity (mergeSources historical keiyoushi))
           /\ In a (getAuthorsFrom localeCompare historical keiyoushi)
           /\ dateLe (AuthorOutput.firstCommit a)
                (ContributorData.firstCommit c))
  /\ (forall historical' keiyoushi' k a a',
         NoDup (emails historical') ->
         NoDup (emails keiyoushi') ->
         Permutation (historical' ++ keiyoushi') (historical ++ keiyoushi) ->
         In (k, a) (byIdentity (mergeSources historical keiyoushi)) ->
         In (k, a') (byIdentity (mergeSources historical' keiyoushi')) ->
         AuthorOutput.firstCommit a' = AuthorOutput.firstCommit a).
Proof.
  intros Hh _. split; [|split; [|split]].
  - intros e r Hin. now apply address_date_isMin in Hin.
  - intros a Hin. apply In_getAuthorsFrom in Hin. destruct Hin as [k Hin].
    exists k. split; [exact Hin|]. now apply identity_date_isMin.
  - intros c Hc.
    destruct (byEmail_covers _ _ _ Hh Hc) as [r Hr].
    assert (He := byEmail_keyed _ _ _ _ Hh Hr).
    assert (Hr' : In r (mergeSources historical keiyoushi))
      by (apply In_mergeSources; eauto).
    destruct (byIdentity_covers _ _ Hr') as [a Ha].
    assert (Hk : recordKey r = recordKey c)
      by (unfold recordKey; congruence).
    rewrite Hk in Ha. exists a. split; [exact Ha|]. split.
    + apply In_getAuthorsFrom. now exists (recordKey c).
    + apply (identity_date_isMin _ _ _ _ Hh) in Ha. destruct Ha as [_ Ha].
      apply Ha. apply In_datesOfKey. now exists c.
  - intros h' k' k a a' Hh' _ Hperm Ha Ha'.
    apply (identity_date_isMin _ _ _ _ Hh) in Ha.
    apply (identity_date_isMin _ _ _ _ Hh') in Ha'.
    apply (isMinDate_unique _ _ _ _ ) with (2 := Ha') (3 := Ha).
    intros d. rewrite !In_datesOfKey.
    split; intros (c & Hc & Hrest); exists c; split; try exact Hrest.
    + now apply (Permutation_in _ Hperm).
    + now apply (Permutation_in _ (Permutation_sym Hperm)).
Qed.

(** ** Commit counts per address *)

Lemma group_nil {A : Type} (key : A -> string) (k : string) (l : list A) :
  ~ In k (map key l) -> group key k l = [].
Proof.
  induction l as [|x l IH]; simpl; [reflexivity|]. intros Hn.
  destruct (String.eqb_spec (key x) k) as [E|_]; [tauto|]. apply IH. tauto.
Qed.

Lemma group_NoDup (e : string) (l : list ContributorData.t) :
  NoDup (emails l) ->
  group ContributorData.email e l =
  match find (fun c => String.eqb (ContributorData.email c) e) l with
  | Some c => [c]
  | None => []
  end.
Proof.
  induction l as [|x l IH]; simpl; [reflexivity|]. intros Hnd.
  inversion Hnd as [|? ? Hx Hnd']; subst.
  destruct (String.eqb_spec (ContributorData.email x) e) as [<-|_].
  - f_equal. now apply group_nil.
  - now apply IH.
Qed.

Lemma find_values_keyed (e : string) (m : JsMap.t ContributorData.t) :
  (forall k r, In (k, r) m -> ContributorData.email r = k) ->
  find (fun c => String.eqb (ContributorData.email c) e) (JsMap.values m)
  = JsMap.get e m.
Proof.
  induction m as [|[k r] m IH]; simpl; [reflexivity|]. intros Hkeyed.
  rewrite (Hkeyed k r) by now left. rewrite (String.eqb_sym e k).
  destruct (String.eqb k e); [reflexivity|].
  apply IH. intros k' r' Hin. apply Hkeyed. now right.
Qed.

Lemma emails_values_keyed (m : JsMap.t ContributorData.t) :
  (forall k r, In (k, r) m -> ContributorData.email r = k) ->
  emails (JsMap.values m) = JsMap.keys m.
Proof.
  induction m as [|[k r] m IH]; simpl; [reflexivity|]. intros Hkeyed.
  f_equal; [apply Hkeyed; now left|].
  apply IH. intros k' r' Hin. apply Hkeyed. now right.
Qed.

Lemma NoDup_mergeSources (a b : list ContributorData.t) :
  NoDup (emails a) -> NoDup (emails (mergeSources a b)).
Proof.
  intros Hnd. unfold mergeSources.
  rewrite emails_values_keyed by (intros k r; now apply byEmail_keyed).
  rewrite (byEmail_upsert _ _ Hnd).
  apply NoDup_keys_fold_upsert. constructor.
Qed.

Lemma commitsAt_mergeSources (e : string) (a b : list ContributorData.t) :
  NoDup (emails a) -> NoDup (emails b) ->
  commitsAt e (mergeSources a b) = addCounts (commitsAt e a) (commitsAt e b).
Proof.
  intros Ha Hb. unfold commitsAt at 1. unfold mergeSources.
  rewrite find_values_keyed by (intros k r; now apply byEmail_keyed).
  rewrite (byEmail_upsert _ _ Ha), get_fold_upsert, group_app.
  rewrite (group_NoDup e a Ha), (group_NoDup e b Hb). unfold commitsAt.
  destruct (find _ a) as [x|]; destruct (find _ b) as [y|]; reflexivity.
Qed.

Lemma addCounts_assoc (x y z : option Z) :
  addCounts x (addCounts y z) = addCounts (addCounts x y) z.
Proof.
  destruct x, y, z; simpl; try reflexivity. f_equal. lia.
Qed.

Lemma addCounts_comm (x y : option Z) : addCounts x y = addCounts y x.
Proof. destruct x, y; simpl; try reflexivity. f_equal. lia. Qed.

(** C4. For lists of records [a], [b], [c] with addresses unique within
    each, the commit count the merge records for an address is the same for
    merge(a, merge(b, c)) and merge(merge(a, b), c) and for merge(a, b) and
    merge(b, a), and it is the sum of the counts of the sources in which the
    address occurs. *)
Theorem mergeSources_counts (a b c : list ContributorData.t) (e : string) :
  NoDup (emails a) -> NoDup (emails b) -> NoDup (emails c) ->
  commitsAt e (mergeSources a (mergeSources b c))
  = commitsAt e (mergeSources (mergeSources a b) c)
  /\ commitsAt e (mergeSources a b) = commitsAt e (mergeSources b a)
  /\ commitsAt e (mergeSources a b)
     = addCounts (commitsAt e a) (commitsAt e b)
  /\ commitsAt e (mergeSources a (mergeSources b c))
     = addCounts (commitsAt e a)
         (addCounts (commitsAt e b) (commitsAt e c)).
Proof.
  intros Ha Hb Hc.
  assert (Hbc := NoDup_mergeSources b c Hb).
  assert (Hab := NoDup_mergeSources a b Ha).
  rewrite (commitsAt_mergeSources e a (mergeSources b c) Ha Hbc).
  rewrite (commitsAt_mergeSources e (mergeSources a b) c Hab Hc).
  rewrite (commitsAt_mergeSources e a b Ha Hb).
  rewrite (commitsAt_mergeSources e b a Hb Ha).
  rewrite (commitsAt_mergeSources e b c Hb Hc).
  repeat split.
  - apply addCounts_assoc.
  - apply addCounts_comm.
Qed.

(** ** Display names *)

(** C1, as stated, fails: a live record that is earlier than the
    historical record of the same address moves the date of the address
    but not its name.  Here the author has the date of the live record
    and the name of the historical one. *)
Lemma displayName_earliest_input_counterexample :
  let historical := [ContributorData.mk "a@x.com" "Alice" 3 "2024-05-01"] in
  let keiyoushi := [ContributorData.mk "a@x.com" "Alicia" 1 "2024-02-01"] in
  let a := AuthorOutput.mk None "Alice" 4 "2024-02-01" in
  NoDup (emails historical) /\ NoDup (emails keiyoushi)
  /\ getAuthorsFrom codeUnitCompare historical keiyoushi = [a]
  /\ In ("a@x.com", a) (byIdentity (mergeSources historical keiyoushi))
  /\ ~ nameOfEarliestInput (historical ++ keiyoushi) "a@x.com" a.
Proof.
  cbv zeta. split; [|split; [|split; [|split]]].
  - repeat constructor. simpl. tauto.
  - repeat constructor. simpl. tauto.
  - reflexivity.
  - left. reflexivity.
  - intros (c & Hc & _ & Hmin & Hname). simpl in Hc.
    destruct Hc as [<-|[<-|[]]].
    + specialize (Hmin (ContributorData.mk "a@x.com" "Alicia" 1 "2024-02-01")).
      simpl in Hmin. discriminate Hmin; auto.
    + discriminate Hname.
Qed.

Lemma mergeIdentity_name (v : AuthorOutput.t) (x : ContributorData.t) :
  AuthorOutput.name (mergeIdentity v x) =
  if String.ltb (ContributorData.firstCommit x) (AuthorOutput.firstCommit v)
  then ContributorData.name x else AuthorOutput.name v.
Proof. reflexivity. Qed.

(** C1, amended.  With addresses unique within each source, every
    author returned by [getAuthors] has the name and the date of the first
    record, in the order of the per-address map, among the per-address
    records of its key that have the least date; and the name of a
    per-address record is the name of the first input record of its address,
    the historical one when the address is in the historical source. *)
Theorem displayName_of_first_earliest
  (localeCompare : string -> string -> comparison)
  (historical keiyoushi : list ContributorData.t) (a : AuthorOutput.t) :
  NoDup (emails historical) ->
  NoDup (emails keiyoushi) ->
  In a (getAuthorsFrom localeCompare historical keiyoushi) ->
  exists k g1 c g2,
    In (k, a) (byIdentity (mergeSources historical keiyoushi))
    /\ group recordKey k (mergeSources historical keiyoushi) = g1 ++ c :: g2
    /\ AuthorOutput.name a = ContributorData.name c
    /\ AuthorOutput.firstCommit a = ContributorData.firstCommit c
    /\ (forall y, In y g1 ->
          dateLt (ContributorData.firstCommit c) (ContributorData.firstCommit y))
    /\ (forall y, In y g2 ->
          dateLe (ContributorData.firstCommit c) (ContributorData.firstCommit y))
    /\ exists r rest,
         group ContributorData.email (ContributorData.email c)
           (historical ++ keiyoushi) = r :: rest
         /\ ContributorData.name c = ContributorData.name r.
Proof.
  intros Hh _ Hin. apply In_getAuthorsFrom in Hin. destruct Hin as [k Hin].
  assert (Hentry := Hin). apply byIdentity_entry in Hentry.
  destruct Hentry as (x & xs & Hg & Ha).
  destruct (fold_merge_first_min mergeIdentity AuthorOutput.firstCommit
              ContributorData.firstCommit mergeIdentity_date newIdentity
              (fun _ => eq_refl) AuthorOutput.name ContributorData.name
              mergeIdentity_name (fun _ => eq_refl) x xs)
    as (g1 & c & g2 & Hsplit & Hn & Hd & Hlt & Hle).
  rewrite <- Ha in Hn, Hd.
  exists k, g1, c, g2. repeat split; try assumption.
  - change (JsMap.values (byEmail historical keiyoushi))
      with (mergeSources historical keiyoushi) in Hg. congruence.
  - assert (Hc : In c (mergeSources historical keiyoushi)).
    { apply (In_group recordKey k).
      change (JsMap.values (byEmail historical keiyoushi))
        with (mergeSources historical keiyoushi) in Hg.
      rewrite Hg, Hsplit. apply in_elt. }
    apply In_mergeSources in Hc. destruct Hc as [e Hc].
    assert (He := byEmail_keyed _ _ _ _ Hh Hc).
    apply (byEmail_entry _ _ _ _ Hh) in Hc.
    destruct Hc as (r & rest & Hgr & Hr).
    exists r, rest. split; [congruence|].
    rewrite Hr. apply name_fold_addLive.
Qed.

(** ** Handles *)

Lemma matchHandle_truthy (s h : string) :
  matchHandle s = Some h -> truthy (Some h) = true.
Proof.
  unfold matchHandle. destruct (spanNotAt s) as [h' r].
  destruct (negb (isEmpty h')) eqn:E; simpl; [|discriminate].
  destruct (String.eqb r noreplySuffix); [|discriminate].
  now intros [= <-].
Qed.

Lemma extractGithub_truthy (email h : string) :
  extractGithubFromNoreply email = Some h -> truthy (Some h) = true.
Proof.
  unfold extractGithubFromNoreply.
  destruct (matchDigitsPlus email) as [rest|].
  - destruct (matchHandle rest) as [h'|] eqn:E.
    + intros [= <-]. now apply matchHandle_truthy in E.
    + apply matchHandle_truthy.
  - apply matchHandle_truthy.
Qed.

Lemma truthy_extractGithub (email : string) :
  truthy (extractGithubFromNoreply email) =
  match extractGithubFromNoreply email with Some _ => true | None => false end.
Proof.
  destruct (extractGithubFromNoreply email) as [h|] eqn:E; [|reflexivity].
  now apply extractGithub_truthy in E.
Qed.

Lemma goodHandle_extract (email : string) :
  goodHandle (extractGithubFromNoreply email).
Proof.
  unfold goodHandle. destruct (extractGithubFromNoreply email) eqn:E; [|exact I].
  now apply extractGithub_truthy in E.
Qed.

Lemma mergeIdentity_github (v : AuthorOutput.t) (x : ContributorData.t) :
  goodHandle (AuthorOutput.github v) ->
  AuthorOutput.github (mergeIdentity v x) =
  orElse (AuthorOutput.github v)
    (extractGithubFromNoreply (ContributorData.email x)).
Proof.
  unfold mergeIdentity, goodHandle. simpl. rewrite truthy_extractGithub.
  destruct (AuthorOutput.github v) as [g|]; simpl.
  - intros ->. now rewrite andb_false_r.
  - intros _. now destruct (extractGithubFromNoreply (ContributorData.email x)).
Qed.

Lemma goodHandle_orElse (a b : option string) :
  goodHandle a -> goodHandle b -> goodHandle (orElse a b).
Proof. destruct a; simpl; auto. Qed.

Lemma orElse_assoc (a b c : option string) :
  orElse (orElse a b) c = orElse a (orElse b c).
Proof. now destruct a. Qed.

Lemma github_fold_mergeIdentity (xs : list ContributorData.t) :
  forall v, goodHandle (AuthorOutput.github v) ->
            AuthorOutput.github (fold_left mergeIdentity xs v)
            = orElse (AuthorOutput.github v) (firstHandle xs).
Proof.
  induction xs as [|x xs IH]; intros v Hv; simpl.
  - now destruct (AuthorOutput.github v).
  - rewrite IH; rewrite (mergeIdentity_github v x Hv).
    + apply orElse_assoc.
    + apply goodHandle_orElse; [exact Hv|apply goodHandle_extract].
Qed.

Lemma github_group (x : ContributorData.t) (xs : list ContributorData.t) :
  AuthorOutput.github (fold_left mergeIdentity xs (newIdentity x))
  = firstHandle (x :: xs).
Proof.
  rewrite github_fold_mergeIdentity; [reflexivity|].
  apply goodHandle_extract.
Qed.

Lemma firstHandle_Some (l : list ContributorData.t) (h : string) :
  firstHandle l = Some h ->
  exists c, In c l /\ extractGithubFromNoreply (ContributorData.email c) = Some h.
Proof.
  induction l as [|x l IH]; simpl; [discriminate|].
  destruct (extractGithubFromNoreply (ContributorData.email x)) as [g|] eqn:E;
    simpl.
  - intros [= <-]. exists x. auto.
  - intros H. destruct (IH H) as (c & Hc & Hh). exists c. auto.
Qed.

Lemma firstHandle_In (l : list ContributorData.t) (c : ContributorData.t)
  (h : string) :
  In c l -> extractGithubFromNoreply (ContributorData.email c) = Some h ->
  exists g, firstHandle l = Some g.
Proof.
  induction l as [|x l IH]; simpl; [tauto|].
  intros [->|Hin] Hh.
  - rewrite Hh. now exists h.
  - destruct (extractGithubFromNoreply (ContributorData.email x)) as [g|];
      simpl; [now exists g|now apply IH].
Qed.

Lemma recordKey_handle (c : ContributorData.t) (h : string) :
  extractGithubFromNoreply (ContributorData.email c) = Some h ->
  recordKey c = toLowerCase h.
Proof. unfold recordKey, identityKey. now intros ->. Qed.

(** C5, as stated, fails: an address without ['@'] that is spelled
    like the handle of an anonymized address shares the merge key of that
    address although the two addresses differ after case folding, and the
    two records become one identity, which carries the handle. *)
Lemma dedup_remainsAlone_counterexample :
  let plain := ContributorData.mk "bob" "Bob" 3 "2023-01-01" in
  let anonymized :=
    ContributorData.mk "1+bob@users.noreply.github.com" "Bobby" 2 "2024-02-01" in
  extractGithubFromNoreply (ContributorData.email plain) = None
  /\ differFolded (ContributorData.email anonymized) (ContributorData.email plain)
  /\ byIdentity [plain; anonymized]
     = [("bob", AuthorOutput.mk (Some "bob") "Bob" 5 "2023-01-01")]
  /\ ~ remainsAlone differFolded [plain; anonymized].
Proof.
  cbv zeta. split; [reflexivity|]. split; [discriminate|].
  split; [reflexivity|].
  intros H.
  specialize (H [] (ContributorData.mk "bob" "Bob" 3 "2023-01-01")
                [ContributorData.mk "1+bob@users.noreply.github.com" "Bobby" 2
                   "2024-02-01"] eq_refl eq_refl).
  assert (Hin : In (recordKey (ContributorData.mk "bob" "Bob" 3 "2023-01-01"),
                    AuthorOutput.mk None "Bob" 3 "2023-01-01")
                  [("bob", AuthorOutput.mk (Some "bob") "Bob" 5 "2023-01-01")]).
  { apply H. intros c' [<-|[]]. discriminate. }
  destruct Hin as [Hin|[]]. discriminate Hin.
Qed.

(** C5, amended.  The identity dedup has exactly one entry for each
    merge key of its records; two records whose addresses give the same
    handle, up to case, are merged into the one entry of that key, which
    has a handle; and a record whose address gives no handle and whose
    merge key is the merge key of no other record is an entry of its own
    without a handle. *)
Theorem dedup_one_identity_per_key (records : list ContributorData.t) :
  NoDup (JsMap.keys (byIdentity records))
  /\ (forall k, In k (JsMap.keys (byIdentity records)) <->
                exists c, In c records /\ recordKey c = k)
  /\ (forall c1 c2 h1 h2,
         In c1 records -> In c2 records ->
         extractGithubFromNoreply (ContributorData.email c1) = Some h1 ->
         extractGithubFromNoreply (ContributorData.email c2) = Some h2 ->
         toLowerCase h1 = toLowerCase h2 ->
         recordKey c1 = recordKey c2
         /\ exists a g,
              (forall a', In (recordKey c1, a') (byIdentity records) <-> a' = a)
              /\ AuthorOutput.github a = Some g
              /\ toLowerCase g = recordKey c1)
  /\ remainsAlone differInKey records.
Proof.
  assert (Hnd : NoDup (JsMap.keys (byIdentity records))).
  { rewrite byIdentity_upsert. apply NoDup_keys_fold_upsert. constructor. }
  split; [exact Hnd|]. split; [|split].
  - intros k. rewrite byIdentity_upsert, In_keys_fold_upsert. simpl.
    rewrite in_map_iff. split.
    + intros [[]|(c & Hk & Hc)]. now exists c.
    + intros (c & Hc & Hk). right. now exists c.
  - intros c1 c2 h1 h2 H1 H2 E1 E2 Hfold.
    assert (Hk : recordKey c1 = recordKey c2)
      by (rewrite (recordKey_handle _ _ E1), (recordKey_handle _ _ E2);
          exact Hfold).
    split; [exact Hk|].
    destruct (byIdentity_covers _ _ H1) as [a Ha]. assert (Ha' := Ha).
    apply byIdentity_entry in Ha'. destruct Ha' as (x & xs & Hg & Hfoldx).
    assert (Hc1 : In c1 (x :: xs))
      by (rewrite <- Hg; now apply In_group).
    destruct (firstHandle_In _ _ _ Hc1 E1) as [g Hfirst].
    exists a, g. split; [|split].
    + intros a'. split.
      * intros Ha'. apply (JsMapFacts.In_get _ _ _ Hnd) in Ha, Ha'. congruence.
      * now intros ->.
    + rewrite Hfoldx, github_group. exact Hfirst.
    + apply firstHandle_Some in Hfirst. destruct Hfirst as (c & Hc & Hh).
      rewrite <- Hg in Hc. apply In_group in Hc. destruct Hc as [_ Hc].
      rewrite <- Hc. symmetry. now apply recordKey_handle.
  - intros pre c post -> Hnone Hdiff. apply byIdentity_entry.
    exists c, []. split.
    + rewrite group_app. simpl. fold (recordKey c).
      rewrite String.eqb_refl.
      rewrite (group_nil recordKey (recordKey c) pre),
        (group_nil recordKey (recordKey c) post); [reflexivity| |];
        rewrite in_map_iff; intros (c' & Hk & Hc');
        apply (Hdiff c'); try exact Hk; apply in_or_app; auto.
    + simpl. unfold newIdentity. now rewrite Hnone.
Qed.

(** C9. In the identity dedup, once the entry of a key has a handle,
    every further merge, of any records and in particular of records whose
    address gives no handle, leaves the entry with that same handle. *)
Theorem publicHandle_never_cleared
  (merged later : list ContributorData.t) (k : string) (a : AuthorOutput.t)
  (h : string) :
  In (k, a) (byIdentity merged) ->
  AuthorOutput.github a = Some h ->
  exists a',
    In (k, a') (fold_left dedupe later (byIdentity merged))
    /\ fold_left dedupe later (byIdentity merged) = byIdentity (merged ++ later)
    /\ AuthorOutput.github a' = Some h.
Proof.
  intros Hin Hh. apply byIdentity_entry in Hin.
  destruct Hin as (x & xs & Hg & Ha).
  assert (Happ : fold_left dedupe later (byIdentity merged)
                 = byIdentity (merged ++ later))
    by (unfold byIdentity; now rewrite fold_left_app).
  exists (fold_left mergeIdentity (group recordKey k later) a).
  split; [|split; [exact Happ|]].
  - rewrite Happ. apply byIdentity_entry.
    exists x, (xs ++ group recordKey k later). split.
    + rewrite group_app, Hg. reflexivity.
    + rewrite fold_left_app. now rewrite Ha.
  - rewrite github_fold_mergeIdentity; [now rewrite Hh|].
    rewrite Ha, github_group. rewrite Ha, github_group in Hh.
    rewrite Hh. apply firstHandle_Some in Hh. destruct Hh as (c & _ & Hc).
    now apply extractGithub_truthy in Hc.
Qed.

(** ** Order of the result *)

Lemma Forall_values_set {V : Type} (P : V -> Prop) (k : string) (v : V)
  (m : JsMap.t V) :
  Forall P (JsMap.values m) -> P v -> Forall P (JsMap.values (JsMap.set k v m)).
Proof.
  induction m as [|[k' v'] m IH]; simpl; intros Hm Hv.
  - now constructor.
  - inversion Hm; subst. destruct (String.eqb k k'); simpl; constructor; auto.
Qed.

Lemma get_Forall_values {V : Type} (P : V -> Prop) (k : string) (v : V)
  (m : JsMap.t V) :
  Forall P (JsMap.values m) -> JsMap.get k m = Some v -> P v.
Proof.
  intros Hm Hget. apply JsMapFacts.get_In in Hget.
  rewrite Forall_forall in Hm. apply Hm.
  unfold JsMap.values. apply in_map_iff. now exists (k, v).
Qed.

Lemma fold_left_Forall_values {A V : Type} (step : JsMap.t V -> A -> JsMap.t V)
  (P : V -> Prop) (Q : A -> Prop) :
  (forall m x, Forall P (JsMap.values m) -> Q x ->
               Forall P (JsMap.values (step m x))) ->
  forall l m, Forall Q l -> Forall P (JsMap.values m) ->
              Forall P (JsMap.values (fold_left step l m)).
Proof.
  intros Hstep. induction l as [|x l IH]; intros m Hl Hm; simpl; [exact Hm|].
  inversion Hl; subst. apply IH; auto.
Qed.

Lemma byEmail_iso (historical keiyoushi : list ContributorData.t) :
  Forall isoRecord historical -> Forall isoRecord keiyoushi ->
  Forall isoRecord (JsMap.values (byEmail historical keiyoushi)).
Proof.
  intros Hh Hk. unfold byEmail.
  apply (fold_left_Forall_values mergeKeiyoushi isoRecord isoRecord);
    [|exact Hk|].
  - intros m x Hm Hx. unfold mergeKeiyoushi.
    destruct (JsMap.get (ContributorData.email x) m) as [v|] eqn:E;
      apply Forall_values_set; auto.
    apply (get_Forall_values _ _ _ _ Hm) in E. unfold isoRecord in *. simpl.
    now destruct (String.ltb _ _).
  - apply (fold_left_Forall_values mergeHistorical isoRecord isoRecord);
      [|exact Hh|constructor].
    intros m x Hm Hx. now apply Forall_values_set.
Qed.

Lemma byIdentity_iso (records : list ContributorData.t) :
  Forall isoRecord records ->
  Forall isoAuthor (JsMap.values (byIdentity records)).
Proof.
  intros Hr. unfold byIdentity.
  apply (fold_left_Forall_values dedupe isoAuthor isoRecord);
    [|exact Hr|constructor].
  intros m x Hm Hx. unfold dedupe.
  destruct (JsMap.get _ m) as [v|] eqn:E; apply Forall_values_set; auto.
  apply (get_Forall_values _ _ _ _ Hm) in E. unfold isoAuthor in *. simpl.
  now destruct (String.ltb _ _).
Qed.

Lemma insertAuthor_ext (cmp1 cmp2 : string -> string -> comparison)
  (a : AuthorOutput.t) (l : list AuthorOutput.t) :
  (forall b, In b l -> compareAuthors cmp1 a b = compareAuthors cmp2 a b) ->
  insertAuthor cmp1 a l = insertAuthor cmp2 a l.
Proof.
  induction l as [|b l IH]; simpl; intros H; [reflexivity|].
  rewrite (H b) by now left.
  destruct (compareAuthors cmp2 a b); try reflexivity.
  f_equal. apply IH. intros b' Hb'. apply H. now right.
Qed.

Lemma sortAuthors_ext (cmp1 cmp2 : string -> string -> comparison)
  (l : list AuthorOutput.t) :
  (forall a b, In a l -> In b l ->
               compareAuthors cmp1 a b = compareAuthors cmp2 a b) ->
  sortAuthors cmp1 l = sortAuthors cmp2 l.
Proof.
  induction l as [|a l IH]; simpl; intros H; [reflexivity|].
  rewrite IH by (intros x y Hx Hy; apply H; now right).
  apply insertAuthor_ext. intros b Hb. apply H; [now left|right].
  now apply (Permutation_in _ (sortAuthors_Permutation cmp2 l)).
Qed.

Lemma insertAuthor_Sorted (a : AuthorOutput.t) (l : list AuthorOutput.t) :
  Sorted authorLe l -> Sorted authorLe (insertAuthor String.compare a l).
Proof.
  induction l as [|b l IH]; simpl; intros Hs.
  - repeat constructor.
  - inversion Hs as [|? ? Hs' Hhd]; subst.
    assert (Hab : compareAuthors String.compare a b <> Gt -> authorLe a b).
    { unfold compareAuthors, authorLe, dateLe, String.leb.
      now destruct (String.compare _ _). }
    destruct (compareAuthors String.compare a b) eqn:E;
      try (constructor; [exact Hs|constructor; apply Hab; discriminate]).
    constructor; [now apply IH|].
    assert (Hba : authorLe b a).
    { unfold compareAuthors in E. unfold authorLe, dateLe, String.leb.
      rewrite String.compare_antisym, E. reflexivity. }
    destruct l as [|c l]; simpl; [now constructor|].
    destruct (compareAuthors String.compare a c); constructor; auto.
    all: now inversion Hhd.
Qed.

Lemma sortAuthors_Sorted (l : list AuthorOutput.t) :
  Sorted authorLe (sortAuthors String.compare l).
Proof.
  induction l as [|a l IH]; simpl; [constructor|].
  now apply insertAuthor_Sorted.
Qed.

Lemma insertAuthor_stable (d : string) (a : AuthorOutput.t)
  (l : list AuthorOutput.t) :
  filter (hasDate d) (insertAuthor String.compare a l)
  = filter (hasDate d) (a :: l).
Proof.
  induction l as [|b l IH]; [reflexivity|].
  cbn [insertAuthor].
  destruct (compareAuthors String.compare a b) eqn:E; try reflexivity.
  cbn [filter] in *. rewrite IH.
  destruct (hasDate d a) eqn:Ha; [|reflexivity].
  destruct (hasDate d b) eqn:Hb; [|reflexivity].
  unfold hasDate in Ha, Hb. apply String.eqb_eq in Ha, Hb.
  unfold compareAuthors in E. rewrite Ha, Hb, compare_refl in E.
  discriminate.
Qed.

Lemma sortAuthors_stable (d : string) (l : list AuthorOutput.t) :
  filter (hasDate d) (sortAuthors String.compare l) = filter (hasDate d) l.
Proof.
  induction l as [|a l IH]; [reflexivity|].
  cbn [sortAuthors fold_right]. fold (sortAuthors String.compare l).
  rewrite insertAuthor_stable. cbn [filter]. now rewrite IH.
Qed.

(** C6. When the collation agrees with the order of code units on ISO
    dates and the dates of the input records are ISO dates, the list
    returned by [getAuthors] is in ascending order of [firstCommit],
    each author not later than the next; it holds the values of the
    identity map, those of one date in the order of the map. *)
Theorem getAuthors_sorted
  (localeCompare : string -> string -> comparison)
  (historical keiyoushi : list ContributorData.t) :
  collatesDates localeCompare ->
  Forall isoRecord historical ->
  Forall isoRecord keiyoushi ->
  Sorted authorLe (getAuthorsFrom localeCompare historical keiyoushi)
  /\ Permutation (getAuthorsFrom localeCompare historical keiyoushi)
       (JsMap.values (byIdentity (mergeSources historical keiyoushi)))
  /\ forall d,
       filter (hasDate d) (getAuthorsFrom localeCompare historical keiyoushi)
       = filter (hasDate d)
           (JsMap.values (byIdentity (mergeSources historical keiyoushi))).
Proof.
  intros Hcoll Hh Hk.
  assert (Hiso : Forall isoAuthor
                   (JsMap.values (byIdentity (mergeSources historical keiyoushi))))
    by (apply byIdentity_iso; now apply byEmail_iso).
  assert (Hsort : getAuthorsFrom localeCompare historical keiyoushi
                  = sortAuthors String.compare
                      (JsMap.values
                         (byIdentity (mergeSources historical keiyoushi)))).
  { unfold getAuthorsFrom. apply sortAuthors_ext. intros a b Ha Hb.
    rewrite Forall_forall in Hiso. unfold compareAuthors.
    apply Hcoll; [now apply (Hiso a)|now apply (Hiso b)]. }
  rewrite Hsort. split; [apply sortAuthors_Sorted|].
  split; [apply sortAuthors_Permutation|]. intros d. apply sortAuthors_stable.
Qed.

(** ** Malformed lines *)

Lemma lineFields_None (line : string) :
  lineFields line = None <-> missingField line.
Proof.
  unfold lineFields, missingField.
  set (fields := split "|" line). split.
  - destruct (nth_error fields 0) as [e|] eqn:E0;
      [|exists 0%nat; rewrite E0; split; [lia|reflexivity]].
    destruct (nth_error fields 1) as [n|] eqn:E1;
      [|exists 1%nat; rewrite E1; split; [lia|reflexivity]].
    destruct (nth_error fields 2) as [d|] eqn:E2;
      [|exists 2%nat; rewrite E2; split; [lia|reflexivity]].
    destruct (truthy (Some e)) eqn:T0;
      [|intros _; exists 0%nat; rewrite E0; split; [lia|exact T0]].
    destruct (truthy (Some n)) eqn:T1;
      [|intros _; exists 1%nat; rewrite E1; split; [lia|exact T1]].
    destruct (truthy (Some d)) eqn:T2;
      [|intros _; exists 2%nat; rewrite E2; split; [lia|exact T2]].
    discriminate.
  - intros (i & Hi & Hfalse).
    destruct (nth_error fields 0) as [e|] eqn:E0; [|reflexivity].
    destruct (nth_error fields 1) as [n|] eqn:E1; [|reflexivity].
    destruct (nth_error fields 2) as [d|] eqn:E2; [|reflexivity].
    destruct i as [|[|[|i]]]; [| | |lia].
    + rewrite E0 in Hfalse. now rewrite Hfalse.
    + rewrite E1 in Hfalse. rewrite Hfalse. simpl. now rewrite orb_true_r.
    + rewrite E2 in Hfalse. rewrite Hfalse. simpl. now rewrite !orb_true_r.
Qed.

Lemma tallyLine_upsert (m : JsMap.t Tally.t) (line : string) :
  tallyLine m line =
  match lineFields line with
  | Some f => upsert fieldsEmail newTally addLine m f
  | None => m
  end.
Proof.
  unfold tallyLine. destruct (lineFields line) as [[[e n] d]|]; reflexivity.
Qed.

Lemma tallyLines_fold (lines : list string) :
  forall m, fold_left tallyLine lines m =
            fold_left (upsert fieldsEmail newTally addLine)
              (validFields lines) m.
Proof.
  induction lines as [|l lines IH]; intros m; simpl; [reflexivity|].
  rewrite IH, tallyLine_upsert.
  destruct (lineFields l); reflexivity.
Qed.

Lemma validFields_app (l1 l2 : list string) :
  validFields (l1 ++ l2) = validFields l1 ++ validFields l2.
Proof. apply flat_map_app. Qed.

Lemma tallyLines_skip (pre post : list string) (bad : string) :
  missingField bad ->
  tallyLines (pre ++ bad :: post) = tallyLines (pre ++ post).
Proof.
  intros Hbad. apply lineFields_None in Hbad. unfold tallyLines.
  rewrite !tallyLines_fold, !validFields_app. simpl. now rewrite Hbad.
Qed.

Lemma commits_fold_addLine (xs : list (string * string * string)) :
  forall t, Tally.commits (fold_left addLine xs t)
            = Tally.commits t + Z.of_nat (List.length xs).
Proof.
  induction xs as [|x xs IH]; intros t; [simpl; lia|].
  cbn [fold_left List.length]. rewrite IH. simpl Tally.commits. lia.
Qed.

Lemma length_group_validFields (e : string) (lines : list string) :
  List.length (group fieldsEmail e (validFields lines))
  = List.length (linesOfAddress e lines).
Proof.
  induction lines as [|l lines IH]; [reflexivity|].
  unfold validFields, linesOfAddress in *. cbn [flat_map filter].
  rewrite group_app, length_app, IH.
  destruct (lineFields l) as [f|]; [|reflexivity].
  unfold group. cbn [filter].
  destruct (String.eqb (fieldsEmail f) e); reflexivity.
Qed.

Lemma length_linesOfAddress_rev (e : string) (lines : list string) :
  List.length (linesOfAddress e (rev lines)) = List.length (linesOfAddress e lines).
Proof.
  unfold linesOfAddress. now rewrite filter_rev, length_rev.
Qed.

Lemma tallyLines_commits (lines : list string) (e : string) (t : Tally.t) :
  In (e, t) (tallyLines lines) ->
  Tally.commits t = Z.of_nat (List.length (linesOfAddress e lines))
  /\ 1 <= Tally.commits t.
Proof.
  unfold tallyLines. rewrite tallyLines_fold. intros Hin.
  apply entry_fold_upsert in Hin. destruct Hin as (x & xs & Hg & ->).
  rewrite <- length_group_validFields, Hg, commits_fold_addLine.
  cbn [List.length newTally Tally.commits]. lia.
Qed.

(** C8. A line of the log that lacks one of the three fields is
    skipped: the records parsed from the log are those parsed from the
    other lines, and every parsed record counts the well-formed lines of its
    address, of which there is at least one. *)
Theorem malformed_line_skipped
  (output : string) (pre post : list string) (bad : string) :
  commitLines output = pre ++ bad :: post ->
  missingField bad ->
  parseLog output = map toContributor (tallyLines (rev (pre ++ post)))
  /\ forall c,
       In c (parseLog output) ->
       ContributorData.commits c
       = Z.of_nat (List.length (linesOfAddress (ContributorData.email c)
                             (pre ++ post)))
       /\ 1 <= ContributorData.commits c.
Proof.
  intros Hlines Hbad.
  assert (Hparse : parseLog output
                   = map toContributor (tallyLines (rev (pre ++ post)))).
  { unfold parseLog, JsMap.entries. rewrite Hlines, !rev_app_distr.
    cbn [rev]. rewrite <- app_assoc. cbn [app].
    now rewrite tallyLines_skip. }
  split; [exact Hparse|].
  intros c Hc. rewrite Hparse in Hc. apply in_map_iff in Hc.
  destruct Hc as ([e t] & <- & Hin). apply tallyLines_commits in Hin.
  cbn [toContributor ContributorData.commits ContributorData.email fst snd].
  now rewrite length_linesOfAddress_rev in Hin.
Qed.

(** ** Addresses without digits and plus sign *)

Lemma spanNotAt_noreply (local : string) :
  containsAt local = false ->
  spanNotAt (String.append local noreplySuffix) = (local, noreplySuffix).
Proof.
  unfold containsAt. induction local as [|c local IH]; [reflexivity|].
  cbn [list_ascii_of_string existsb String.append spanNotAt].
  rewrite (Ascii.eqb_sym c "@"%char).
  destruct (Ascii.eqb "@"%char c); [discriminate|]. cbn [orb].
  intros H. now rewrite (IH H).
Qed.

Lemma matchHandle_noreply (local : string) :
  local <> EmptyString ->
  containsAt local = false ->
  matchHandle (String.append local noreplySuffix) = Some local.
Proof.
  intros Hne Hat. unfold matchHandle. rewrite (spanNotAt_noreply _ Hat).
  rewrite String.eqb_refl. destruct local; [congruence|reflexivity].
Qed.

Lemma skipDigits_noreply (s : string) :
  skipDigits (String.append s noreplySuffix) =
  match skipDigits s with
  | EmptyString => noreplySuffix
  | String p rest => String p (String.append rest noreplySuffix)
  end.
Proof.
  induction s as [|c s IH]; [reflexivity|].
  cbn [String.append skipDigits]. destruct (isDigit c); [exact IH|reflexivity].
Qed.

Lemma matchDigitsPlus_noreply (local : string) :
  matchDigitsPlus local = None ->
  matchDigitsPlus (String.append local noreplySuffix) = None.
Proof.
  destruct local as [|c s]; [reflexivity|].
  cbn [String.append matchDigitsPlus].
  destruct (isDigit c); [|reflexivity].
  rewrite skipDigits_noreply.
  destruct (skipDigits s) as [|p rest]; [reflexivity|].
  now destruct (Ascii.eqb p "+").
Qed.

(** C10. For an address [local@users.noreply.github.com] whose local
    part is not empty, has no ['@'] and does not start with digits followed
    by ['+'], [extractGithubFromNoreply] returns the whole local part, and
    the merge key of the address is the case-folded local part, not the
    case-folded address. *)
Theorem extractGithub_without_prefix (local : string) :
  local <> EmptyString ->
  containsAt local = false ->
  matchDigitsPlus local = None ->
  extractGithubFromNoreply (String.append local noreplySuffix) = Some local
  /\ identityKey (String.append local noreplySuffix) = toLowerCase local
  /\ identityKey (String.append local noreplySuffix)
     <> toLowerCase (String.append local noreplySuffix).
Proof.
  intros Hne Hat Hplus.
  assert (He : extractGithubFromNoreply (String.append local noreplySuffix)
               = Some local).
  { unfold extractGithubFromNoreply.
    rewrite (matchDigitsPlus_noreply _ Hplus).
    now apply matchHandle_noreply. }
  split; [exact He|]. unfold identityKey. rewrite He.
  split; [reflexivity|].
  intros Heq. apply (f_equal String.length) in Heq. revert Heq.
  clear. induction local as [|c s IH]; cbn; [discriminate|].
  intros [= H]. now apply IH.
Qed.

(** * Runs of the model *)

Example extract_with_digits :
  extractGithubFromNoreply "12345+alice@users.noreply.github.com"
  = Some "alice".
Proof. reflexivity. Qed.

Example extract_plain_address :
  extractGithubFromNoreply "a@x.com" = None.
Proof. reflexivity. Qed.

Example extract_empty_handle_backtracks :
  extractGithubFromNoreply "123+@users.noreply.github.com" = Some "123+".
Proof. reflexivity. Qed.

Example extract_empty_local_part :
  extractGithubFromNoreply "@users.noreply.github.com" = None.
Proof. reflexivity. Qed.

Example parse_sample_log :
  parseLog sampleLog = [ContributorData.mk "alice@x.com" "Alice" 2 "2024-02-01"].
Proof. reflexivity. Qed.

Example authors_of_samples :
  getAuthorsFrom codeUnitCompare sampleHistorical sampleKeiyoushi
  = [AuthorOutput.mk None "Alice" 3 "2023-01-01";
     AuthorOutput.mk None "Carol" 6 "2023-06-15";
     AuthorOutput.mk (Some "alice") "alice" 2 "2024-02-01"].
Proof. reflexivity. Qed.

(** A historical source that repeats an address loses the commits of the
    first record: the uniqueness of addresses within a source is needed. *)
Example repeated_historical_address :
  getAuthorsFrom codeUnitCompare
    [ContributorData.mk "a@x.com" "Alice" 3 "2023-01-01";
     ContributorData.mk "a@x.com" "Alice" 5 "2023-02-01"] []
  = [AuthorOutput.mk None "Alice" 5 "2023-02-01"].
Proof. reflexivity. Qed.

(** Without a snapshot file a unit has no historical records, but a
    unit named like a property of [Object.prototype] finds the inherited
    function, which is not iterable. *)
Example authors_without_snapshot :
  getAuthors codeUnitCompare (mkEnv Absent (fun _ => false) (fun _ => Throws))
    None "en/mangapill"
  = (Returns [], Some defaultSnapshot).
Proof. reflexivity. Qed.

Example authors_of_inherited_key :
  getAuthors codeUnitCompare (mkEnv Absent (fun _ => false) (fun _ => Throws))
    None "constructor"
  = (Throws, Some defaultSnapshot).
Proof. reflexivity. Qed.

(** A snapshot file that does not parse, one without [extensions] and an
    entry that is not an array. *)
Example authors_of_unreadable_snapshot :
  getAuthors codeUnitCompare
    (mkEnv (Present Throws) (fun _ => true) (fun _ => Returns sampleLog))
    None "en/mangapill"
  = (Throws, None).
Proof. reflexivity. Qed.

Example authors_without_extensions :
  getAuthors codeUnitCompare
    (mkEnv (Present (Returns (DataObject None))) (fun _ => true)
       (fun _ => Returns sampleLog))
    None "en/mangapill"
  = (Throws, Some (DataObject None)).
Proof. reflexivity. Qed.

Example authors_of_entry_not_iterable :
  fst (getAuthors codeUnitCompare
         (mkEnv
            (Present
               (Returns
                  (DataObject
                     (Some (ExtensionsObject
                              [("en/mangapill", EntryNotIterable)])))))
            (fun _ => true) (fun _ => Returns sampleLog))
         None "en/mangapill")
  = Throws.
Proof. reflexivity. Qed.

(** A file that parses to null is returned and read again by the next
    call. *)
Example falsy_snapshot_read_again :
  loadEach
    [mkEnv (Present (Returns (DataOther false))) (fun _ => false)
       (fun _ => Throws);
     sampleEnv; mkEnv Absent (fun _ => false) (fun _ => Throws)]
    None
  = ([Returns (DataOther false); Returns sampleSnapshot;
      Returns sampleSnapshot],
     Some sampleSnapshot).
Proof. reflexivity. Qed.

(** * The theorems at sample inputs *)

Ltac distinct_emails :=
  repeat (constructor; [simpl; intuition discriminate|]); constructor.

Lemma displayName_of_first_earliest_witness :
  NoDup (emails sampleHistorical) /\ NoDup (emails sampleKeiyoushi)
  /\ In sampleAuthor
       (getAuthorsFrom codeUnitCompare sampleHistorical sampleKeiyoushi)
  /\ exists k g1 c g2,
       In (k, sampleAuthor)
         (byIdentity (mergeSources sampleHistorical sampleKeiyoushi))
       /\ group recordKey k (mergeSources sampleHistorical sampleKeiyoushi)
          = g1 ++ c :: g2
       /\ AuthorOutput.name sampleAuthor = ContributorData.name c
       /\ AuthorOutput.firstCommit sampleAuthor = ContributorData.firstCommit c
       /\ (forall y, In y g1 ->
             dateLt (ContributorData.firstCommit c)
               (ContributorData.firstCommit y))
       /\ (forall y, In y g2 ->
             dateLe (ContributorData.firstCommit c)
               (ContributorData.firstCommit y))
       /\ exists r rest,
            group ContributorData.email (ContributorData.email c)
              (sampleHistorical ++ sampleKeiyoushi) = r :: rest
            /\ ContributorData.name c = ContributorData.name r.
Proof.
  assert (H1 : NoDup (emails sampleHistorical)) by distinct_emails.
  assert (H2 : NoDup (emails sampleKeiyoushi)) by distinct_emails.
  assert (H3 : In sampleAuthor
                 (getAuthorsFrom codeUnitCompare sampleHistorical
                    sampleKeiyoushi))
    by (vm_compute; tauto).
  split; [exact H1|]. split; [exact H2|]. split; [exact H3|].
  exact (displayName_of_first_earliest codeUnitCompare sampleHistorical
           sampleKeiyoushi sampleAuthor H1 H2 H3).
Defined.

Lemma getAuthors_total_commits_witness :
  NoDup (emails sampleHistorical) /\ NoDup (emails sampleKeiyoushi)
  /\ sumZ AuthorOutput.commits
    (getAuthorsFrom codeUnitCompare sampleHistorical sampleKeiyoushi)
  = sumZ ContributorData.commits (sampleHistorical ++ sampleKeiyoushi).
Proof.
  assert (H1 : NoDup (emails sampleHistorical)) by distinct_emails.
  assert (H2 : NoDup (emails sampleKeiyoushi)) by distinct_emails.
  split; [exact H1|]. split; [exact H2|].
  exact (proj1 (getAuthors_total_commits codeUnitCompare sampleHistorical
                  sampleKeiyoushi H1 H2)).
Defined.

Lemma firstCommit_is_minimum_witness :
  NoDup (emails sampleHistorical) /\ NoDup (emails sampleKeiyoushi)
  /\ forall a,
    In a (getAuthorsFrom codeUnitCompare sampleHistorical sampleKeiyoushi) ->
    exists k,
      In (k, a) (byIdentity (mergeSources sampleHistorical sampleKeiyoushi))
      /\ isMinDate (AuthorOutput.firstCommit a)
           (datesOfKey k (sampleHistorical ++ sampleKeiyoushi)).
Proof.
  assert (H1 : NoDup (emails sampleHistorical)) by distinct_emails.
  assert (H2 : NoDup (emails sampleKeiyoushi)) by distinct_emails.
  split; [exact H1|]. split; [exact H2|].
  exact (proj1 (proj2 (firstCommit_is_minimum codeUnitCompare
                         sampleHistorical sampleKeiyoushi H1 H2))).
Defined.

Lemma mergeSources_counts_witness :
  NoDup (emails sampleHistorical) /\ NoDup (emails sampleKeiyoushi)
  /\ NoDup (emails sampleThird)
  /\ commitsAt "carol@x.com"
    (mergeSources sampleHistorical (mergeSources sampleKeiyoushi sampleThird))
  = addCounts (commitsAt "carol@x.com" sampleHistorical)
      (addCounts (commitsAt "carol@x.com" sampleKeiyoushi)
         (commitsAt "carol@x.com" sampleThird)).
Proof.
  assert (H1 : NoDup (emails sampleHistorical)) by distinct_emails.
  assert (H2 : NoDup (emails sampleKeiyoushi)) by distinct_emails.
  assert (H3 : NoDup (emails sampleThird)) by distinct_emails.
  split; [exact H1|]. split; [exact H2|]. split; [exact H3|].
  exact (proj2 (proj2 (proj2 (mergeSources_counts sampleHistorical
                                sampleKeiyoushi sampleThird "carol@x.com"
                                H1 H2 H3)))).
Defined.

Lemma getAuthors_sorted_witness :
  collatesDates codeUnitCompare
  /\ Forall isoRecord sampleHistorical /\ Forall isoRecord sampleKeiyoushi
  /\ Sorted authorLe
    (getAuthorsFrom codeUnitCompare sampleHistorical sampleKeiyoushi).
Proof.
  assert (H1 : collatesDates codeUnitCompare) by (intros a b _ _; reflexivity).
  assert (H2 : Forall isoRecord sampleHistorical) by (repeat constructor).
  assert (H3 : Forall isoRecord sampleKeiyoushi) by (repeat constructor).
  split; [exact H1|]. split; [exact H2|]. split; [exact H3|].
  exact (proj1 (getAuthors_sorted codeUnitCompare sampleHistorical
                  sampleKeiyoushi H1 H2 H3)).
Defined.

Lemma malformed_line_skipped_witness :
  parseLog sampleLog
  = map toContributor
      (tallyLines
         (rev (["alice@x.com|Alice|2024-03-01T10:00:00+00:00"]
               ++ ["alice@x.com|Alice|2024-02-01T09:30:00+00:00"]))).
Proof.
  assert (H1 : commitLines sampleLog
               = ["alice@x.com|Alice|2024-03-01T10:00:00+00:00"]
                 ++ "bob@x.com|Bob Smith|"
                    :: ["alice@x.com|Alice|2024-02-01T09:30:00+00:00"])
    by reflexivity.
  assert (H2 : missingField "bob@x.com|Bob Smith|")
    by (exists 2%nat; split; [lia|reflexivity]).
  exact (proj1 (malformed_line_skipped sampleLog _ _ _ H1 H2)).
Defined.

Lemma dedup_one_identity_per_key_witness :
  let records := [sampleAnonymized; sampleAnonymized'; samplePlain] in
  (recordKey sampleAnonymized = recordKey sampleAnonymized'
   /\ exists a g,
        (forall a', In (recordKey sampleAnonymized, a') (byIdentity records)
                    <-> a' = a)
        /\ AuthorOutput.github a = Some g
        /\ toLowerCase g = recordKey sampleAnonymized)
  /\ In (recordKey samplePlain, AuthorOutput.mk None "Dave" 4 "2023-03-03")
       (byIdentity records).
Proof.
  cbv zeta.
  destruct (dedup_one_identity_per_key
              [sampleAnonymized; sampleAnonymized'; samplePlain])
    as (_ & _ & Hsame & Halone).
  split.
  - apply (Hsame sampleAnonymized sampleAnonymized' "alice" "Alice").
    + simpl. tauto.
    + simpl. tauto.
    + reflexivity.
    + reflexivity.
    + reflexivity.
  - apply (Halone [sampleAnonymized; sampleAnonymized'] samplePlain []
             eq_refl eq_refl).
    intros c' [<-|[<-|[]]]; unfold differInKey; vm_compute; discriminate.
Defined.

Lemma publicHandle_never_cleared_witness :
  exists a',
    In ("alice", a')
      (fold_left dedupe [ContributorData.mk "Alice" "Alice A" 1 "2022-01-01"]
         (byIdentity sampleKeiyoushi))
    /\ fold_left dedupe [ContributorData.mk "Alice" "Alice A" 1 "2022-01-01"]
         (byIdentity sampleKeiyoushi)
       = byIdentity
           (sampleKeiyoushi
            ++ [ContributorData.mk "Alice" "Alice A" 1 "2022-01-01"])
    /\ AuthorOutput.github a' = Some "alice".
Proof.
  apply (publicHandle_never_cleared sampleKeiyoushi
           [ContributorData.mk "Alice" "Alice A" 1 "2022-01-01"] "alice"
           (AuthorOutput.mk (Some "alice") "alice" 2 "2024-02-01") "alice").
  - left. reflexivity.
  - reflexivity.
Defined.

Lemma extractGithub_without_prefix_witness :
  extractGithubFromNoreply "alice@users.noreply.github.com" = Some "alice"
  /\ identityKey "alice@users.noreply.github.com" = "alice".
Proof.
  destruct (extractGithub_without_prefix "alice") as (H1 & H2 & _).
  - discriminate.
  - reflexivity.
  - reflexivity.
  - split; [exact H1|exact H2].
Defined.

(** * Further properties of the attribution script *)

(** ** The addresses [extractGithubFromNoreply] accepts *)

Lemma append_assoc (a b c : string) :
  String.append (String.append a b) c = String.append a (String.append b c).
Proof. induction a as [|x a IH]; simpl; [reflexivity|now rewrite IH]. Qed.

Lemma containsAt_append (a b : string) :
  containsAt (String.append a b) = containsAt a || containsAt b.
Proof.
  unfold containsAt. induction a as [|x a IH]; [reflexivity|].
  cbn [String.append list_ascii_of_string existsb].
  now rewrite IH, orb_assoc.
Qed.

Lemma spanNotAt_spec (s h r : string) :
  spanNotAt s = (h, r) ->
  s = String.append h r /\ containsAt h = false.
Proof.
  revert h r. induction s as [|c s IH]; simpl; intros h r.
  - intros [= <- <-]. now split.
  - destruct (Ascii.eqb c "@") eqn:E.
    + intros [= <- <-]. now split.
    + destruct (spanNotAt s) as [h' r']. intros [= <- <-].
      destruct (IH h' r' eq_refl) as [-> Hat]. split; [reflexivity|].
      unfold containsAt in *. cbn [list_ascii_of_string existsb].
      rewrite Ascii.eqb_sym, E. exact Hat.
Qed.

Lemma matchHandle_Some (s h : string) :
  matchHandle s = Some h ->
  s = String.append h noreplySuffix /\ h <> EmptyString
  /\ containsAt h = false.
Proof.
  unfold matchHandle. destruct (spanNotAt s) as [h' r] eqn:E.
  apply spanNotAt_spec in E. destruct E as [-> Hat].
  destruct h' as [|c h']; simpl; [discriminate|].
  destruct (String.eqb_spec r noreplySuffix) as [->|]; [|discriminate].
  intros [= <-]. repeat split; [discriminate|exact Hat].
Qed.

Lemma skipDigits_spec (s : string) :
  exists d, s = String.append d (skipDigits s) /\ allDigits d = true.
Proof.
  induction s as [|c s (d & Hs & Hd)]; simpl.
  - now exists EmptyString.
  - destruct (isDigit c) eqn:E.
    + exists (String c d). split; [cbn [String.append]; f_equal; exact Hs|].
      unfold allDigits in *. cbn [list_ascii_of_string forallb].
      now rewrite E.
    + now exists EmptyString.
Qed.

Lemma matchDigitsPlus_Some (s rest : string) :
  matchDigitsPlus s = Some rest ->
  exists d, d <> EmptyString /\ allDigits d = true
            /\ s = String.append (String.append d "+") rest.
Proof.
  destruct s as [|c s]; simpl; [discriminate|].
  destruct (isDigit c) eqn:E; [|discriminate].
  destruct (skipDigits_spec s) as (d & Hs & Hd).
  destruct (skipDigits s) as [|p r]; [discriminate|].
  destruct (Ascii.eqb_spec p "+") as [->|]; [|discriminate].
  intros [= <-]. exists (String c d). split; [discriminate|]. split.
  - unfold allDigits in *. cbn [list_ascii_of_string forallb]. now rewrite E.
  - rewrite append_assoc. cbn [String.append]. f_equal. exact Hs.
Qed.

Lemma allDigits_no_at (d : string) : allDigits d = true -> containsAt d = false.
Proof.
  unfold allDigits, containsAt. induction d as [|c d IH]; [reflexivity|].
  cbn [list_ascii_of_string existsb forallb].
  intros H. apply andb_true_iff in H. destruct H as [Hc Hd].
  rewrite (IH Hd), orb_false_r.
  destruct (Ascii.eqb_spec "@"%char c) as [<-|]; [discriminate Hc|reflexivity].
Qed.

(** X1. A handle returned by [extractGithubFromNoreply] is not empty and
    has no ['@'], and the address is an optional run of digits with ['+'],
    the handle and the anonymization domain, with nothing before or after. *)
Theorem extractGithub_shape (email h : string) :
  extractGithubFromNoreply email = Some h ->
  h <> EmptyString
  /\ containsAt h = false
  /\ exists prefix,
       isIdPrefix prefix
       /\ email = String.append prefix (String.append h noreplySuffix).
Proof.
  unfold extractGithubFromNoreply.
  destruct (matchDigitsPlus email) as [rest|] eqn:Ed.
  - destruct (matchHandle rest) as [h'|] eqn:Eh.
    + intros [= <-]. apply matchHandle_Some in Eh.
      destruct Eh as (-> & Hne & Hat).
      apply matchDigitsPlus_Some in Ed. destruct Ed as (d & Hd & Hall & ->).
      repeat split; try assumption.
      exists (String.append d "+"). split; [|reflexivity].
      right. now exists d.
    + intros Hm. apply matchHandle_Some in Hm. destruct Hm as (-> & Hne & Hat).
      repeat split; try assumption. exists EmptyString. split; [now left|reflexivity].
  - intros Hm. apply matchHandle_Some in Hm. destruct Hm as (-> & Hne & Hat).
    repeat split; try assumption. exists EmptyString. split; [now left|reflexivity].
Qed.

Lemma extractGithub_shape_witness :
  extractGithubFromNoreply "12345+alice@users.noreply.github.com" = Some "alice"
  /\ exists prefix,
       isIdPrefix prefix
       /\ "12345+alice@users.noreply.github.com"
          = String.append prefix (String.append "alice" noreplySuffix).
Proof.
  split; [reflexivity|].
  exact (proj2 (proj2 (extractGithub_shape
                         "12345+alice@users.noreply.github.com" "alice"
                         eq_refl))).
Defined.

(** X2. [extractGithubFromNoreply] returns a handle exactly for the
    addresses made of a non-empty part without ['@'] followed by the
    anonymization domain; for every other address it returns null. *)
Theorem extractGithub_accepts (email : string) :
  (exists h, extractGithubFromNoreply email = Some h) <->
  (exists local, local <> EmptyString /\ containsAt local = false
                 /\ email = String.append local noreplySuffix).
Proof.
  split.
  - intros [h Hh]. unfold extractGithubFromNoreply in Hh.
    assert (Hplain : matchHandle email = Some h ->
              exists local, local <> EmptyString /\ containsAt local = false
                            /\ email = String.append local noreplySuffix).
    { intros Hm. apply matchHandle_Some in Hm. destruct Hm as (-> & Hne & Hat).
      now exists h. }
    destruct (matchDigitsPlus email) as [rest|] eqn:Ed; [|now apply Hplain].
    destruct (matchHandle rest) as [h'|] eqn:Eh; [|now apply Hplain].
    injection Hh as ->. apply matchHandle_Some in Eh.
    destruct Eh as (-> & Hne & Hat).
    apply matchDigitsPlus_Some in Ed. destruct Ed as (d & Hd & Hall & ->).
    exists (String.append (String.append d "+") h). repeat split.
    + destruct d; [congruence|discriminate].
    + rewrite !containsAt_append, (allDigits_no_at d Hall), Hat. reflexivity.
    + symmetry. apply append_assoc.
  - intros (local & Hne & Hat & ->).
    assert (Hm := matchHandle_noreply local Hne Hat).
    unfold extractGithubFromNoreply.
    destruct (matchDigitsPlus _) as [rest|]; [|eauto].
    destruct (matchHandle rest) as [h|]; eauto.
Qed.

Lemma skipDigits_plus (d r : string) :
  allDigits d = true ->
  skipDigits (String.append d (String "+" r)) = String "+" r.
Proof.
  unfold allDigits. induction d as [|c d IH]; [reflexivity|].
  cbn [list_ascii_of_string forallb String.append skipDigits].
  intros H. apply andb_true_iff in H. destruct H as [-> Hd]. now apply IH.
Qed.

Lemma matchDigitsPlus_prefixed (d r : string) :
  d <> EmptyString -> allDigits d = true ->
  matchDigitsPlus (String.append d (String "+" r)) = Some r.
Proof.
  destruct d as [|c d]; [congruence|]. intros _ H.
  unfold allDigits in H. cbn [list_ascii_of_string forallb] in H.
  apply andb_true_iff in H. destruct H as [Hc Hd].
  cbn [String.append matchDigitsPlus]. rewrite Hc.
  now rewrite (skipDigits_plus d r Hd).
Qed.

(** X3. For an address made of a run of digits, ['+'], a non-empty handle
    without ['@'] and the anonymization domain, [extractGithubFromNoreply]
    returns the handle without the digits, and the merge key is the
    case-folded handle: it is the merge key of every address without the
    digits whose handle is the same up to case. *)
Theorem extractGithub_strips_id (d h : string) :
  d <> EmptyString -> allDigits d = true ->
  h <> EmptyString -> containsAt h = false ->
  extractGithubFromNoreply
    (String.append d (String "+" (String.append h noreplySuffix))) = Some h
  /\ identityKey
       (String.append d (String "+" (String.append h noreplySuffix)))
     = toLowerCase h
  /\ forall h',
       h' <> EmptyString -> containsAt h' = false ->
       matchDigitsPlus h' = None -> toLowerCase h' = toLowerCase h ->
       identityKey (String.append h' noreplySuffix)
       = identityKey
           (String.append d (String "+" (String.append h noreplySuffix))).
Proof.
  intros Hd Hall Hh Hat.
  assert (He : extractGithubFromNoreply
                 (String.append d (String "+" (String.append h noreplySuffix)))
               = Some h).
  { unfold extractGithubFromNoreply.
    rewrite (matchDigitsPlus_prefixed d _ Hd Hall).
    now rewrite (matchHandle_noreply h Hh Hat). }
  split; [exact He|]. unfold identityKey at 1 3. rewrite He.
  split; [reflexivity|].
  intros h' Hh' Hat' Hplus Hfold. unfold identityKey.
  unfold extractGithubFromNoreply.
  rewrite (matchDigitsPlus_noreply h' Hplus), (matchHandle_noreply h' Hh' Hat').
  exact Hfold.
Qed.

Lemma extractGithub_strips_id_witness :
  extractGithubFromNoreply "12345+Alice@users.noreply.github.com" = Some "Alice"
  /\ identityKey "alice@users.noreply.github.com"
     = identityKey "12345+Alice@users.noreply.github.com".
Proof.
  destruct (extractGithub_strips_id "12345" "Alice") as (H1 & _ & H3).
  - discriminate.
  - reflexivity.
  - discriminate.
  - reflexivity.
  - split; [exact H1|].
    apply (H3 "alice"); [discriminate|reflexivity|reflexivity|reflexivity].
Defined.

(** ** The records of [getKeiyoushiCommits] *)

Lemma emails_parseLog (output : string) :
  emails (parseLog output)
  = JsMap.keys (tallyLines (rev (commitLines output))).
Proof.
  unfold parseLog, JsMap.entries, emails, JsMap.keys. rewrite map_map.
  reflexivity.
Qed.

Lemma tallyLines_upsert (lines : list string) :
  tallyLines lines
  = fold_left (upsert fieldsEmail newTally addLine) (validFields lines)
      JsMap.empty.
Proof. apply tallyLines_fold. Qed.

Lemma lineFields_validFields (lines : list string)
  (f : string * string * string) :
  In f (validFields lines) <->
  exists line, In line lines /\ lineFields line = Some f.
Proof.
  unfold validFields. rewrite in_flat_map. split.
  - intros (line & Hl & Hf). exists line. split; [exact Hl|].
    destruct (lineFields line) as [g|]; [|destruct Hf].
    destruct Hf as [->|[]]. reflexivity.
  - intros (line & Hl & Hf). exists line. split; [exact Hl|].
    rewrite Hf. now left.
Qed.

(** X4. The records returned for a log have pairwise different
    addresses, and an address is among them exactly when the log has a
    well-formed line of that address. *)
Theorem parseLog_addresses (output : string) :
  NoDup (emails (parseLog output))
  /\ forall e,
       In e (emails (parseLog output)) <->
       exists line name date,
         In line (commitLines output)
         /\ lineFields line = Some (e, name, date).
Proof.
  rewrite emails_parseLog, tallyLines_upsert. split.
  - apply NoDup_keys_fold_upsert. constructor.
  - intros e. rewrite In_keys_fold_upsert. simpl. rewrite in_map_iff. split.
    + intros [[]|([[e' n] d] & <- & Hf)].
      apply lineFields_validFields in Hf. destruct Hf as (line & Hl & Hf).
      exists line, n, d. split; [|exact Hf]. now apply in_rev.
    + intros (line & n & d & Hl & Hf). right. exists (e, n, d).
      split; [reflexivity|]. apply lineFields_validFields.
      exists line. split; [|exact Hf]. now apply in_rev in Hl.
Qed.

Lemma commits_toContributor (e : string * Tally.t) :
  ContributorData.commits (toContributor e) = Tally.commits (snd e).
Proof. reflexivity. Qed.

Lemma sumZ_map {X Y : Type} (f : Y -> Z) (g : X -> Y) (l : list X) :
  sumZ f (map g l) = sumZ (fun x => f (g x)) l.
Proof. induction l as [|x l IH]; simpl; [reflexivity|now rewrite IH]. Qed.

Lemma sumZ_ones {X : Type} (l : list X) :
  sumZ (fun _ => 1) l = Z.of_nat (List.length l).
Proof.
  induction l as [|x l IH]; [reflexivity|].
  change (sumZ (fun _ : X => 1) (x :: l)) with (1 + sumZ (fun _ : X => 1) l).
  rewrite IH. cbn [List.length]. lia.
Qed.

Lemma length_validFields_rev (lines : list string) :
  List.length (validFields (rev lines)) = List.length (validFields lines).
Proof.
  induction lines as [|l lines IH]; [reflexivity|].
  cbn [rev]. rewrite validFields_app, length_app, IH.
  unfold validFields. cbn [flat_map]. rewrite app_nil_r, length_app. lia.
Qed.

Lemma tallyLines_total (lines : list string) :
  sumZ Tally.commits (JsMap.values (tallyLines lines))
  = Z.of_nat (List.length (validFields lines)).
Proof.
  rewrite tallyLines_upsert.
  rewrite (sumZ_fold_upsert fieldsEmail newTally addLine Tally.commits
             (fun _ => 1)) by reflexivity.
  now rewrite sumZ_ones.
Qed.

Lemma sumZ_toContributor (m : JsMap.t Tally.t) :
  sumZ ContributorData.commits (map toContributor m)
  = sumZ Tally.commits (JsMap.values m).
Proof. unfold JsMap.values. now rewrite !sumZ_map. Qed.

(** X5. The commit counts of the records returned for a log add up to
    the number of well-formed lines of the log: every such line is counted
    once, under its address. *)
Theorem parseLog_total (output : string) :
  sumZ ContributorData.commits (parseLog output)
  = Z.of_nat (List.length (validFields (commitLines output))).
Proof.
  unfold parseLog, JsMap.entries.
  rewrite sumZ_toContributor, tallyLines_total.
  now rewrite length_validFields_rev.
Qed.

Lemma name_fold_addLine (xs : list (string * string * string)) :
  forall t, Tally.name (fold_left addLine xs t) = Tally.name t.
Proof.
  induction xs as [|x xs IH]; intros t; [reflexivity|].
  cbn [fold_left]. now rewrite IH.
Qed.

Lemma addLine_date (t : Tally.t) (f : string * string * string) :
  Tally.firstCommit (addLine t f) =
  if String.ltb (fieldsDay f) (Tally.firstCommit t)
  then fieldsDay f else Tally.firstCommit t.
Proof. reflexivity. Qed.

Lemma parseLog_record (output : string) (c : ContributorData.t) :
  In c (parseLog output) ->
  exists x xs,
    group fieldsEmail (ContributorData.email c)
      (validFields (rev (commitLines output))) = x :: xs
    /\ ContributorData.name c = fieldsName x
    /\ isMinDate (ContributorData.firstCommit c) (map fieldsDay (x :: xs)).
Proof.
  unfold parseLog, JsMap.entries. rewrite in_map_iff.
  intros ([e t] & <- & Hin). rewrite tallyLines_upsert in Hin.
  apply entry_fold_upsert in Hin. destruct Hin as (x & xs & Hg & ->).
  exists x, xs. cbn [toContributor fst snd ContributorData.email
                      ContributorData.name ContributorData.firstCommit].
  split; [exact Hg|]. split; [apply name_fold_addLine|].
  apply (fold_merge_isMin addLine Tally.firstCommit fieldsDay addLine_date
           newTally).
  reflexivity.
Qed.

Lemma validFields_rev (lines : list string) :
  validFields (rev lines) = rev (validFields lines).
Proof.
  induction lines as [|l lines IH]; [reflexivity|].
  cbn [rev]. rewrite validFields_app, IH. unfold validFields at 2 3.
  cbn [flat_map]. rewrite app_nil_r, rev_app_distr.
  now destruct (lineFields l).
Qed.

Lemma group_rev {A : Type} (key : A -> string) (k : string) (l : list A) :
  group key k (rev l) = rev (group key k l).
Proof. apply filter_rev. Qed.

Lemma isMinDate_incl (d : string) (ds ds' : list string) :
  (forall x, In x ds <-> In x ds') -> isMinDate d ds -> isMinDate d ds'.
Proof.
  intros Heq [Hin Hle]. split; [now apply Heq|].
  intros d' Hd'. apply Hle. now apply Heq.
Qed.

(** X6. A record returned for a log has the name of the last
    well-formed line of its address in the log, which for the newest-first
    output of [git log] is the oldest commit, and as date the least day
    among the well-formed lines of its address. *)
Theorem parseLog_name_and_date (output : string) (c : ContributorData.t) :
  In c (parseLog output) ->
  exists earlier last,
    group fieldsEmail (ContributorData.email c)
      (validFields (commitLines output)) = earlier ++ [last]
    /\ ContributorData.name c = fieldsName last
    /\ isMinDate (ContributorData.firstCommit c)
         (map fieldsDay (earlier ++ [last])).
Proof.
  intros Hin. apply parseLog_record in Hin.
  destruct Hin as (x & xs & Hg & Hname & Hmin).
  rewrite validFields_rev, group_rev in Hg.
  apply (f_equal (@rev _)) in Hg. rewrite rev_involutive in Hg.
  cbn [rev] in Hg. exists (rev xs), x. split; [exact Hg|].
  split; [exact Hname|].
  apply (isMinDate_incl _ (map fieldsDay (x :: xs))); [|exact Hmin].
  intros d. rewrite !in_map_iff.
  split; intros (f & Hf & Hin); exists f; split; try exact Hf.
  - apply in_or_app. destruct Hin as [->|Hin]; [right; now left|left].
    now apply in_rev in Hin.
  - apply in_app_or in Hin. destruct Hin as [Hin|[->|[]]]; [right|now left].
    now apply in_rev.
Qed.

Lemma parseLog_name_and_date_witness :
  In (ContributorData.mk "alice@x.com" "Alice" 2 "2024-02-01")
    (parseLog sampleLog)
  /\ exists earlier last,
       group fieldsEmail "alice@x.com" (validFields (commitLines sampleLog))
       = earlier ++ [last]
       /\ "Alice" = fieldsName last
       /\ isMinDate "2024-02-01" (map fieldsDay (earlier ++ [last])).
Proof.
  assert (H : In (ContributorData.mk "alice@x.com" "Alice" 2 "2024-02-01")
                (parseLog sampleLog)) by (left; reflexivity).
  split; [exact H|].
  exact (parseLog_name_and_date sampleLog _ H).
Defined.

Lemma trimStart_blank (s : string) : isBlank s = true -> trimStart s = EmptyString.
Proof.
  unfold isBlank. induction s as [|c s IH]; [reflexivity|].
  cbn [list_ascii_of_string forallb trimStart]. intros H.
  apply andb_true_iff in H. destruct H as [-> Hs]. now apply IH.
Qed.

(** X7. When [git log] prints nothing but white space, as it does when
    no commit after the cutoff touches the unit, no record is returned. *)
Theorem parseLog_blank (output : string) :
  isBlank output = true -> parseLog output = [].
Proof.
  intros H. unfold parseLog, commitLines, trim.
  now rewrite (trimStart_blank output H).
Qed.

Lemma parseLog_blank_witness :
  isBlank (String "010" (String " " (String "010" EmptyString))) = true
  /\ parseLog (String "010" (String " " (String "010" EmptyString))) = [].
Proof.
  split; [reflexivity|].
  exact (parseLog_blank (String "010" (String " " (String "010" EmptyString)))
           eq_refl).
Defined.

Lemma hd_split_lacks (sep : ascii) (a b : string) :
  lacks sep a = true ->
  hd EmptyString (split sep (String.append a (String sep b))) = a.
Proof.
  unfold lacks. induction a as [|c a IH].
  - intros _. cbn [String.append split]. now rewrite Ascii.eqb_refl.
  - cbn [list_ascii_of_string forallb String.append split]. intros H.
    apply andb_true_iff in H. destruct H as [Hc Ha].
    apply negb_true_iff in Hc. rewrite Hc. specialize (IH Ha).
    destruct (split sep (String.append a (String sep b))) as [|p r];
      cbn [hd] in *; now subst.
Qed.

Lemma isDigit_not_T (c : ascii) : isDigit c = true -> Ascii.eqb c "T" = false.
Proof.
  destruct (Ascii.eqb_spec c "T") as [->|]; [discriminate|reflexivity].
Qed.

Lemma hyphen_not_T (c : ascii) : Ascii.eqb c "-" = true -> Ascii.eqb c "T" = false.
Proof. intros H. apply Ascii.eqb_eq in H. now subst. Qed.

Lemma isIsoDate_lacks_T (day : string) :
  isIsoDate day = true -> lacks "T" day = true.
Proof.
  unfold isIsoDate, lacks.
  destruct day as [|c1 [|c2 [|c3 [|c4 [|c5 [|c6 [|c7 [|c8 [|c9 [|c10 [|c11 r]]]]]]]]]]];
    cbn [list_ascii_of_string]; try discriminate.
  cbn [forallb]. intros H.
  apply andb_true_iff in H. destruct H as [H Hh2].
  apply andb_true_iff in H. destruct H as [H Hh1].
  repeat (apply andb_true_iff in H; destruct H as [? H]).
  repeat match goal with
         | Hd : isDigit ?c = true |- _ => apply isDigit_not_T in Hd; rewrite Hd
         | Hh : Ascii.eqb ?c "-" = true |- _ => apply hyphen_not_T in Hh; rewrite Hh
         end.
  reflexivity.
Qed.

Lemma dateOnly_timestamp (day time : string) :
  isIsoDate day = true ->
  dateOnly (String.append day (String "T" time)) = day.
Proof.
  intros H. unfold dateOnly. apply hd_split_lacks. now apply isIsoDate_lacks_T.
Qed.

Lemma parseLog_iso (output : string) :
  (forall line e n d,
      In line (commitLines output) -> lineFields line = Some (e, n, d) ->
      isTimestamp d) ->
  Forall isoRecord (parseLog output).
Proof.
  intros Hts. apply Forall_forall. intros c Hc.
  apply parseLog_record in Hc. destruct Hc as (x & xs & Hg & _ & [Hin _]).
  apply in_map_iff in Hin. destruct Hin as ([[e n] d] & Hd & Hf).
  rewrite <- Hg in Hf. apply In_group in Hf. destruct Hf as [Hf _].
  apply lineFields_validFields in Hf. destruct Hf as (line & Hl & Hf).
  apply in_rev in Hl. destruct (Hts line e n d Hl Hf) as (day & time & Hiso & ->).
  unfold isoRecord. rewrite <- Hd. unfold fieldsDay, fieldsDate. cbn [snd].
  now rewrite dateOnly_timestamp.
Qed.

(** X8. When the date field of every well-formed line of a log is an
    ISO date followed by ['T'] and the time, as [%aI] prints it, the date
    of every record returned is that ISO date of one of the lines of its
    address, without the time. *)
Theorem parseLog_dates_are_days (output : string) (c : ContributorData.t) :
  (forall line e n d,
      In line (commitLines output) -> lineFields line = Some (e, n, d) ->
      isTimestamp d) ->
  In c (parseLog output) ->
  isIsoDate (ContributorData.firstCommit c) = true
  /\ exists line name time,
       In line (commitLines output)
       /\ lineFields line
          = Some (ContributorData.email c, name,
                  String.append (ContributorData.firstCommit c)
                    (String "T" time)).
Proof.
  intros Hts Hc. split.
  - assert (H := parseLog_iso output Hts). rewrite Forall_forall in H.
    now apply H.
  - apply parseLog_record in Hc. destruct Hc as (x & xs & Hg & _ & [Hin _]).
    apply in_map_iff in Hin. destruct Hin as ([[e n] d] & Hd & Hf).
    rewrite <- Hg in Hf. apply In_group in Hf. destruct Hf as [Hf He].
    apply lineFields_validFields in Hf. destruct Hf as (line & Hl & Hf).
    apply in_rev in Hl.
    destruct (Hts line e n d Hl Hf) as (day & time & Hiso & ->).
    unfold fieldsDay, fieldsDate in Hd. cbn [snd] in Hd.
    rewrite (dateOnly_timestamp day time Hiso) in Hd.
    unfold fieldsEmail in He. cbn [fst] in He. subst.
    exists line, n, time. split; [exact Hl|exact Hf].
Qed.

Lemma parseLog_dates_are_days_witness :
  In (ContributorData.mk "alice@x.com" "Alice" 2 "2024-02-01")
    (parseLog sampleLog)
  /\ isIsoDate "2024-02-01" = true.
Proof.
  assert (Hts : forall line e n d,
             In line (commitLines sampleLog) ->
             lineFields line = Some (e, n, d) -> isTimestamp d).
  { intros line e n d Hin Hf.
    change (commitLines sampleLog)
      with ["alice@x.com|Alice|2024-03-01T10:00:00+00:00";
            "bob@x.com|Bob Smith|";
            "alice@x.com|Alice|2024-02-01T09:30:00+00:00"] in Hin.
    destruct Hin as [<-|[<-|[<-|[]]]]; vm_compute in Hf;
      try discriminate Hf; injection Hf as <- <- <-.
    - exists "2024-03-01", "10:00:00+00:00". split; reflexivity.
    - exists "2024-02-01", "09:30:00+00:00". split; reflexivity. }
  assert (Hin : In (ContributorData.mk "alice@x.com" "Alice" 2 "2024-02-01")
                  (parseLog sampleLog)) by (left; reflexivity).
  split; [exact Hin|].
  exact (proj1 (parseLog_dates_are_days sampleLog _ Hts Hin)).
Defined.

(** ** Commit counts per identity *)

Lemma In_set {V : Type} (k k' : string) (v v' : V) (m : JsMap.t V) :
  In (k', v') (JsMap.set k v m) -> (k', v') = (k, v) \/ In (k', v') m.
Proof.
  induction m as [|[k0 v0] m IH]; simpl.
  - intros [H|[]]. left. now symmetry.
  - destruct (String.eqb k k0); simpl.
    + intros [H|H]; [left; now symmetry|right; now right].
    + intros [H|H]; [right; now left|].
      destruct (IH H) as [E|I]; [now left|right; now right].
Qed.

Lemma keyed_mergeKeiyoushi (m : JsMap.t ContributorData.t)
  (c : ContributorData.t) :
  keyed m -> keyed (mergeKeiyoushi m c).
Proof.
  intros Hm k r Hin. unfold mergeKeiyoushi in Hin.
  destruct (JsMap.get (ContributorData.email c) m) as [v|] eqn:E;
    apply In_set in Hin; destruct Hin as [[= -> ->]|Hin]; auto.
  simpl. apply Hm. now apply JsMapFacts.get_In.
Qed.

Lemma keyed_mergeHistorical (m : JsMap.t ContributorData.t)
  (c : ContributorData.t) :
  keyed m -> keyed (mergeHistorical m c).
Proof.
  intros Hm k r Hin. unfold mergeHistorical in Hin.
  apply In_set in Hin. destruct Hin as [[= -> ->]|Hin]; auto.
Qed.

Lemma keyed_fold (step : JsMap.t ContributorData.t -> ContributorData.t ->
                         JsMap.t ContributorData.t)
  (l : list ContributorData.t) :
  (forall m c, keyed m -> keyed (step m c)) ->
  forall m, keyed m -> keyed (fold_left step l m).
Proof.
  intros Hstep. induction l as [|c l IH]; intros m Hm; simpl; auto.
Qed.

Lemma sumZ_keyCommits_group (k : string) (l : list ContributorData.t) :
  sumZ ContributorData.commits (group recordKey k l) = sumZ (keyCommits k) l.
Proof.
  induction l as [|c l IH]; [reflexivity|].
  unfold group, keyCommits in *. cbn [filter sumZ fold_right].
  destruct (String.eqb (recordKey c) k); cbn [sumZ fold_right];
    unfold sumZ in IH; rewrite IH; reflexivity.
Qed.

Lemma sumZ_keyCommits_fold (k : string) (l : list ContributorData.t) :
  forall m, keyed m ->
            sumZ (keyCommits k) (JsMap.values (fold_left mergeKeiyoushi l m))
            = sumZ (keyCommits k) (JsMap.values m) + sumZ (keyCommits k) l.
Proof.
  induction l as [|c l IH]; intros m Hm; [simpl; lia|].
  cbn [fold_left]. rewrite (IH _ (keyed_mergeKeiyoushi m c Hm)).
  change (sumZ (keyCommits k) (c :: l))
    with (keyCommits k c + sumZ (keyCommits k) l).
  enough (sumZ (keyCommits k) (JsMap.values (mergeKeiyoushi m c))
          = sumZ (keyCommits k) (JsMap.values m) + keyCommits k c) by lia.
  unfold mergeKeiyoushi.
  destruct (JsMap.get (ContributorData.email c) m) as [v|] eqn:E;
    rewrite sumZ_set, E; [|lia].
  apply JsMapFacts.get_In, Hm in E.
  unfold keyCommits, recordKey. cbn [ContributorData.email
                                       ContributorData.commits].
  rewrite E. destruct (String.eqb _ k); lia.
Qed.

Lemma commits_fold_mergeIdentity (xs : list ContributorData.t) :
  forall v, AuthorOutput.commits (fold_left mergeIdentity xs v)
            = AuthorOutput.commits v + sumZ ContributorData.commits xs.
Proof.
  induction xs as [|x xs IH]; intros v; [simpl; lia|].
  cbn [fold_left]. rewrite IH.
  change (sumZ ContributorData.commits (x :: xs))
    with (ContributorData.commits x + sumZ ContributorData.commits xs).
  cbn [mergeIdentity AuthorOutput.commits]. lia.
Qed.

(** X11. With addresses unique in the historical source, the commit
    count of every entry of the per-address map is the sum of the counts
    of the input records of that address, and the commit count of every
    identity is the sum of the counts of the input records of both sources
    whose merge key is the key of the identity. *)
Theorem commits_per_identity
  (historical keiyoushi : list ContributorData.t) :
  NoDup (emails historical) ->
  (forall e r,
      In (e, r) (byEmail historical keiyoushi) ->
      ContributorData.commits r
      = sumZ ContributorData.commits
          (group ContributorData.email e (historical ++ keiyoushi)))
  /\ (forall k a,
         In (k, a) (byIdentity (mergeSources historical keiyoushi)) ->
         AuthorOutput.commits a
         = sumZ ContributorData.commits
             (group recordKey k (historical ++ keiyoushi))).
Proof.
  intros Hnd. split.
  - intros e r Hin. apply (byEmail_entry _ _ _ _ Hnd) in Hin.
    destruct Hin as (y & ys & -> & ->). apply commits_fold_addLive.
  - intros k a Hin. apply byIdentity_entry in Hin.
    destruct Hin as (x & xs & Hg & ->).
    rewrite commits_fold_mergeIdentity.
    change (AuthorOutput.commits (newIdentity x)
            + sumZ ContributorData.commits xs)
      with (sumZ ContributorData.commits (x :: xs)).
    rewrite <- Hg, !sumZ_keyCommits_group. unfold mergeSources.
    rewrite (byEmail_upsert _ _ Hnd).
    change (fold_left (upsert ContributorData.email (fun x => x) addLive))
      with (fold_left mergeKeiyoushi).
    rewrite sumZ_keyCommits_fold by (intros ? ? []). reflexivity.
Qed.

Lemma commits_per_identity_witness :
  NoDup (emails sampleHistorical)
  /\ forall k a,
       In (k, a) (byIdentity (mergeSources sampleHistorical sampleKeiyoushi)) ->
       AuthorOutput.commits a
       = sumZ ContributorData.commits
           (group recordKey k (sampleHistorical ++ sampleKeiyoushi)).
Proof.
  assert (H : NoDup (emails sampleHistorical)) by distinct_emails.
  split; [exact H|].
  exact (proj2 (commits_per_identity sampleHistorical sampleKeiyoushi H)).
Defined.

(** ** The handle of an identity *)

Lemma firstHandle_None (l : list ContributorData.t) :
  firstHandle l = None <->
  forall c, In c l -> extractGithubFromNoreply (ContributorData.email c) = None.
Proof.
  induction l as [|x l IH]; simpl.
  - split; [intros _ c []|reflexivity].
  - destruct (extractGithubFromNoreply (ContributorData.email x)) as [g|] eqn:E;
      simpl.
    + split; [discriminate|]. intros H. specialize (H x (or_introl eq_refl)).
      congruence.
    + rewrite IH. split.
      * intros H c [<-|Hc]; [exact E|now apply H].
      * intros H c Hc. apply H. now right.
Qed.

(** X12. The handle of an identity is the handle of the first record of
    its key, in the order of the records, whose address gives one; it is
    null exactly when no record of the key has an anonymized address. *)
Theorem github_is_first_handle (records : list ContributorData.t)
  (k : string) (a : AuthorOutput.t) :
  In (k, a) (byIdentity records) ->
  AuthorOutput.github a = firstHandle (group recordKey k records)
  /\ (AuthorOutput.github a = None <->
      forall c, In c records -> recordKey c = k ->
                extractGithubFromNoreply (ContributorData.email c) = None).
Proof.
  intros Hin. apply byIdentity_entry in Hin.
  destruct Hin as (x & xs & Hg & ->). rewrite github_group, <- Hg.
  split; [reflexivity|]. rewrite firstHandle_None. split.
  - intros H c Hc Hk. apply H. now apply In_group.
  - intros H c Hc. apply In_group in Hc. destruct Hc as [Hc Hk]. now apply H.
Qed.

Lemma github_is_first_handle_witness :
  In ("alice", AuthorOutput.mk (Some "alice") "alice" 2 "2024-02-01")
    (byIdentity sampleKeiyoushi)
  /\ Some "alice" = firstHandle (group recordKey "alice" sampleKeiyoushi).
Proof.
  assert (H : In ("alice", AuthorOutput.mk (Some "alice") "alice" 2 "2024-02-01")
                (byIdentity sampleKeiyoushi)) by (left; reflexivity).
  split; [exact H|].
  exact (proj1 (github_is_first_handle sampleKeiyoushi "alice" _ H)).
Defined.

(** ** Records that merge with nothing *)

Section Distinct.
Context {A V : Type}.
Variable key : A -> string.
Variable init : A -> V.
Variable merge : V -> A -> V.

Lemma keys_map_pairs (l : list A) :
  JsMap.keys (map (fun x => (key x, init x)) l) = map key l.
Proof. unfold JsMap.keys. rewrite map_map. reflexivity. Qed.

Lemma fold_upsert_distinct (l : list A) :
  NoDup (map key l) ->
  fold_left (upsert key init merge) l JsMap.empty
  = map (fun x => (key x, init x)) l.
Proof.
  induction l as [|x l IH] using rev_ind; [reflexivity|].
  rewrite map_app. cbn [map]. intros Hnd.
  apply NoDup_remove in Hnd. rewrite app_nil_r in Hnd.
  destruct Hnd as [Hnd Hx].
  rewrite fold_left_app. cbn [fold_left]. rewrite (IH Hnd).
  unfold upsert.
  assert (Hget : JsMap.get (key x) (map (fun y => (key y, init y)) l) = None)
    by (apply JsMapFacts.get_None; now rewrite keys_map_pairs).
  rewrite Hget, (JsMapFacts.set_absent _ _ _ Hget), map_app. reflexivity.
Qed.
End Distinct.

Lemma recordKey_emails (l : list ContributorData.t) :
  map recordKey l = map identityKey (emails l).
Proof. unfold emails. rewrite map_map. reflexivity. Qed.

(** X13. When the input records of both sources have pairwise different
    merge keys, nothing is merged: [getAuthors] returns one author for
    every input record, with the name, the count and the date of the record
    and the handle of its address, in the order of the sort. *)
Theorem getAuthors_distinct_keys
  (localeCompare : string -> string -> comparison)
  (historical keiyoushi : list ContributorData.t) :
  NoDup (map recordKey (historical ++ keiyoushi)) ->
  mergeSources historical keiyoushi = historical ++ keiyoushi
  /\ getAuthorsFrom localeCompare historical keiyoushi
     = sortAuthors localeCompare (map newIdentity (historical ++ keiyoushi)).
Proof.
  intros Hk.
  assert (He : NoDup (emails (historical ++ keiyoushi)))
    by (rewrite recordKey_emails in Hk; now apply NoDup_map_inv in Hk).
  assert (Hh : NoDup (emails historical)).
  { unfold emails in He. rewrite map_app in He.
    now apply NoDup_app_remove_r in He. }
  assert (Hm : mergeSources historical keiyoushi = historical ++ keiyoushi).
  { unfold mergeSources. rewrite (byEmail_upsert _ _ Hh).
    rewrite (fold_upsert_distinct _ _ _ _ He). unfold JsMap.values.
    rewrite map_map. apply map_id. }
  split; [exact Hm|]. unfold getAuthorsFrom.
  change (JsMap.values (byEmail historical keiyoushi))
    with (mergeSources historical keiyoushi).
  rewrite Hm, byIdentity_upsert, (fold_upsert_distinct _ _ _ _ Hk).
  unfold JsMap.values. rewrite map_map. reflexivity.
Qed.

Lemma getAuthors_distinct_keys_witness :
  NoDup (map recordKey ([sampleAnonymized] ++ [samplePlain]))
  /\ getAuthorsFrom codeUnitCompare [sampleAnonymized] [samplePlain]
     = sortAuthors codeUnitCompare
         (map newIdentity ([sampleAnonymized] ++ [samplePlain])).
Proof.
  assert (H : NoDup (map recordKey ([sampleAnonymized] ++ [samplePlain]))).
  { change (NoDup ["alice"; "dave@x.com"]).
    repeat (constructor; [simpl; intuition discriminate|]); constructor. }
  split; [exact H|].
  exact (proj2 (getAuthors_distinct_keys codeUnitCompare [sampleAnonymized]
                  [samplePlain] H)).
Defined.

(** ** The per-address map without assumptions on the sources *)

Lemma mergeHistorical_upsert (m : JsMap.t ContributorData.t)
  (c : ContributorData.t) :
  mergeHistorical m c = upsert ContributorData.email (fun x => x) overwrite m c.
Proof.
  unfold mergeHistorical, upsert, overwrite.
  now destruct (JsMap.get (ContributorData.email c) m).
Qed.

Lemma byEmail_folds (historical keiyoushi : list ContributorData.t) :
  byEmail historical keiyoushi
  = fold_left (upsert ContributorData.email (fun x => x) addLive) keiyoushi
      (fold_left (upsert ContributorData.email (fun x => x) overwrite)
         historical JsMap.empty).
Proof.
  unfold byEmail.
  now rewrite (fold_left_ext _ _ historical mergeHistorical_upsert).
Qed.

Lemma NoDup_keys_byEmail (historical keiyoushi : list ContributorData.t) :
  NoDup (JsMap.keys (byEmail historical keiyoushi)).
Proof.
  rewrite byEmail_folds. apply NoDup_keys_fold_upsert.
  apply NoDup_keys_fold_upsert. constructor.
Qed.

Lemma keyed_byEmail (historical keiyoushi : list ContributorData.t) :
  keyed (byEmail historical keiyoushi).
Proof.
  unfold byEmail. apply keyed_fold; [apply keyed_mergeKeiyoushi|].
  apply keyed_fold; [apply keyed_mergeHistorical|]. intros ? ? [].
Qed.

Lemma In_keys_byEmail (historical keiyoushi : list ContributorData.t)
  (e : string) :
  In e (JsMap.keys (byEmail historical keiyoushi)) <->
  In e (emails (historical ++ keiyoushi)).
Proof.
  rewrite byEmail_folds, !In_keys_fold_upsert. unfold emails.
  rewrite map_app, in_app_iff. simpl. tauto.
Qed.

(** X14. Whatever the two sources hold, the records handed to the
    identity dedup have pairwise different addresses, each is filed in the
    per-address map under its own address, and their addresses are the
    addresses of the input records of both sources. *)
Theorem mergeSources_addresses (historical keiyoushi : list ContributorData.t) :
  NoDup (emails (mergeSources historical keiyoushi))
  /\ keyed (byEmail historical keiyoushi)
  /\ forall e,
       In e (emails (mergeSources historical keiyoushi)) <->
       In e (emails (historical ++ keiyoushi)).
Proof.
  assert (Hk := keyed_byEmail historical keiyoushi).
  assert (He : emails (mergeSources historical keiyoushi)
               = JsMap.keys (byEmail historical keiyoushi))
    by (unfold mergeSources; now apply emails_values_keyed).
  rewrite He. split; [apply NoDup_keys_byEmail|]. split; [exact Hk|].
  apply In_keys_byEmail.
Qed.

Lemma fold_accum_overwrite (g : list ContributorData.t) :
  forall o, fold_left (accum (fun x => x) overwrite) g o
            = match rev g with
              | [] => o
              | x :: _ => Some x
              end.
Proof.
  induction g as [|x g IH] using rev_ind; intros o; [reflexivity|].
  rewrite fold_left_app, rev_app_distr. cbn [fold_left rev app].
  unfold accum, overwrite. now destruct (fold_left _ g o).
Qed.

Lemma find_hd_filter {X : Type} (p : X -> bool) (l : list X) :
  find p l = match filter p l with [] => None | x :: _ => Some x end.
Proof.
  induction l as [|x l IH]; [reflexivity|]. simpl. now destruct (p x).
Qed.

(** X15. When the historical source repeats an address, only its last
    record of that address counts: the commit count of an entry of the
    per-address map is the count of the last historical record of the
    address, if there is one, plus the counts of the live records of the
    address. *)
Theorem repeated_historical_address_last_wins
  (historical keiyoushi : list ContributorData.t)
  (e : string) (r : ContributorData.t) :
  In (e, r) (byEmail historical keiyoushi) ->
  ContributorData.commits r
  = match find (fun c => String.eqb (ContributorData.email c) e)
            (rev historical) with
    | Some h => ContributorData.commits h
    | None => 0
    end
    + sumZ ContributorData.commits
        (group ContributorData.email e keiyoushi).
Proof.
  intros Hin.
  apply (JsMapFacts.In_get _ _ _ (NoDup_keys_byEmail _ _)) in Hin.
  rewrite byEmail_folds, !get_fold_upsert in Hin. simpl in Hin.
  rewrite fold_accum_overwrite in Hin.
  rewrite find_hd_filter, filter_rev.
  fold (group ContributorData.email e historical).
  destruct (rev (group ContributorData.email e historical)) as [|h hs].
  - rewrite fold_accum_None in Hin.
    destruct (group ContributorData.email e keiyoushi) as [|x xs];
      [discriminate|].
    injection Hin as <-. rewrite commits_fold_addLive. reflexivity.
  - rewrite fold_accum_Some in Hin. injection Hin as <-.
    apply commits_fold_addLive.
Qed.

Lemma repeated_historical_address_last_wins_witness :
  In ("a@x.com", ContributorData.mk "a@x.com" "Alice" 6 "2023-02-01")
    (byEmail
       [ContributorData.mk "a@x.com" "Alice" 3 "2023-01-01";
        ContributorData.mk "a@x.com" "Alice" 5 "2023-02-01"]
       [ContributorData.mk "a@x.com" "A" 1 "2024-02-01"])
  /\ 6 = 5 + sumZ ContributorData.commits
               (group ContributorData.email "a@x.com"
                  [ContributorData.mk "a@x.com" "A" 1 "2024-02-01"]).
Proof.
  assert (H : In ("a@x.com", ContributorData.mk "a@x.com" "Alice" 6 "2023-02-01")
                (byEmail
                   [ContributorData.mk "a@x.com" "Alice" 3 "2023-01-01";
                    ContributorData.mk "a@x.com" "Alice" 5 "2023-02-01"]
                   [ContributorData.mk "a@x.com" "A" 1 "2024-02-01"]))
    by (left; reflexivity).
  split; [exact H|].
  exact (repeated_historical_address_last_wins _ _ _ _ H).
Defined.

(** ** Size of the result *)

Lemma length_set {V : Type} (k : string) (v : V) (m : JsMap.t V) :
  (List.length (JsMap.set k v m) <= S (List.length m))%nat.
Proof.
  induction m as [|[k' v'] m IH]; simpl; [lia|].
  destruct (String.eqb k k'); simpl; lia.
Qed.

Lemma length_fold_upsert {A V : Type} (key : A -> string) (init : A -> V)
  (merge : V -> A -> V) (l : list A) :
  forall m, (List.length (fold_left (upsert key init merge) l m)
             <= List.length m + List.length l)%nat.
Proof.
  induction l as [|x l IH]; intros m; simpl; [lia|].
  specialize (IH (upsert key init merge m x)).
  assert (H : (List.length (upsert key init merge m x) <= S (List.length m))%nat)
    by (unfold upsert; destruct (JsMap.get (key x) m); apply length_set).
  lia.
Qed.

(** X16. [getAuthors] returns at most one author for every input record
    of the two sources, and it returns no author exactly when both sources
    are empty. *)
Theorem getAuthors_size
  (localeCompare : string -> string -> comparison)
  (historical keiyoushi : list ContributorData.t) :
  (List.length (getAuthorsFrom localeCompare historical keiyoushi)
   <= List.length (historical ++ keiyoushi))%nat
  /\ (getAuthorsFrom localeCompare historical keiyoushi = [] <->
      historical ++ keiyoushi = []).
Proof.
  assert (Hlen : List.length (getAuthorsFrom localeCompare historical keiyoushi)
                 = List.length
                     (byIdentity (JsMap.values (byEmail historical keiyoushi)))).
  { unfold getAuthorsFrom.
    rewrite (Permutation_length (sortAuthors_Permutation _ _)).
    unfold JsMap.values. apply length_map. }
  split.
  - rewrite Hlen, byIdentity_upsert.
    eapply Nat.le_trans; [apply length_fold_upsert|].
    unfold JsMap.values. rewrite length_map, byEmail_folds. simpl.
    eapply Nat.le_trans; [apply length_fold_upsert|].
    assert (H := length_fold_upsert ContributorData.email (fun x => x)
                   overwrite historical JsMap.empty).
    rewrite length_app. simpl in H. lia.
  - split.
    + intros Hnil. destruct (historical ++ keiyoushi) as [|c l] eqn:E;
        [reflexivity|exfalso].
      assert (Hc : In (ContributorData.email c)
                     (JsMap.keys (byEmail historical keiyoushi))).
      { apply In_keys_byEmail. rewrite E. now left. }
      unfold JsMap.keys in Hc. apply in_map_iff in Hc.
      destruct Hc as ([e r] & _ & Hr).
      assert (Hr' : In r (JsMap.values (byEmail historical keiyoushi)))
        by (unfold JsMap.values; apply in_map_iff; now exists (e, r)).
      destruct (byIdentity_covers _ _ Hr') as [a Ha].
      rewrite Hnil in Hlen. simpl in Hlen.
      destruct (byIdentity _); [destruct Ha|discriminate].
    + intros Hnil. apply app_eq_nil in Hnil. destruct Hnil as [-> ->].
      reflexivity.
Qed.

(** ** The snapshot and its cache *)

Lemma readSnapshot_cache (env : Env) (cache cache' : option snapshotData)
  (data : snapshotData) :
  readSnapshot env cache = (Returns data, cache') -> cache' = Some data.
Proof.
  unfold readSnapshot.
  destruct (historicalCommitsFile env) as [|[d|]]; congruence.
Qed.

Lemma loadHistoricalCommits_cache (env : Env)
  (cache cache' : option snapshotData) (data : snapshotData) :
  loadHistoricalCommits env cache = (Returns data, cache') ->
  cache' = Some data.
Proof.
  unfold loadHistoricalCommits. destruct cache as [d|].
  - destruct (truthyData d); [congruence|apply readSnapshot_cache].
  - apply readSnapshot_cache.
Qed.

Lemma loadHistoricalCommits_truthy (env : Env) (data : snapshotData) :
  truthyData data = true ->
  loadHistoricalCommits env (Some data) = (Returns data, Some data).
Proof. intros H. unfold loadHistoricalCommits. now rewrite H. Qed.

Lemma loadHistoricalCommits_falsy (env : Env) (cache : option snapshotData) :
  (forall d, cache = Some d -> truthyData d = false) ->
  loadHistoricalCommits env cache = readSnapshot env cache.
Proof.
  intros H. unfold loadHistoricalCommits. destruct cache as [d|]; [|reflexivity].
  now rewrite (H d eq_refl).
Qed.

Lemma loadHistoricalCommits_again (env : Env)
  (cache cache' : option snapshotData) (r : outcome snapshotData) :
  loadHistoricalCommits env cache = (r, cache') ->
  loadHistoricalCommits env cache' = (r, cache').
Proof.
  assert (Hread : readSnapshot env cache = (r, cache') ->
                  (forall d, cache = Some d -> truthyData d = false) ->
                  loadHistoricalCommits env cache' = (r, cache')).
  { unfold readSnapshot.
    destruct (historicalCommitsFile env) as [|[d|]] eqn:Hfile.
    - intros [= <- <-] _. reflexivity.
    - intros [= <- <-] _. unfold loadHistoricalCommits, readSnapshot.
      rewrite Hfile. now destruct (truthyData d).
    - intros [= <- <-] Hfalsy.
      rewrite (loadHistoricalCommits_falsy _ _ Hfalsy).
      unfold readSnapshot. now rewrite Hfile. }
  unfold loadHistoricalCommits at 1. destruct cache as [d|].
  - destruct (truthyData d) eqn:E.
    + intros [= <- <-]. now apply loadHistoricalCommits_truthy.
    + intros H. apply Hread; [exact H|]. now intros d' [= <-].
  - intros H. apply Hread; [exact H|]. intros d' [=].
Qed.

Lemma lacks_slash (lang name : string) :
  lacks "/" (String.append lang (String "/" name)) = false.
Proof.
  unfold lacks. induction lang as [|c lang IH]; [reflexivity|].
  cbn [String.append list_ascii_of_string forallb]. rewrite IH.
  apply andb_false_r.
Qed.

Lemma inheritsKey_slash (lang name : string) :
  inheritsKey (String.append lang (String "/" name)) = false.
Proof.
  assert (H : forall k, lacks "/" k = true ->
                        String.eqb (String.append lang (String "/" name)) k
                        = false).
  { intros k Hk.
    destruct (String.eqb_spec (String.append lang (String "/" name)) k)
      as [E|]; [|reflexivity].
    rewrite <- E, lacks_slash in Hk. discriminate. }
  unfold inheritsKey, objectPrototypeKeys. cbn [existsb].
  rewrite !H by reflexivity. reflexivity.
Qed.

(** X17. When [loadHistoricalCommits] returns a snapshot, the cache
    holds that snapshot afterwards.  A snapshot that is truthy, as every
    object is, is then returned by every later call, whatever the file
    holds by then, and the cache stays as it is; a snapshot that is falsy
    is returned once, and the next call reads the file again.  With no
    file and a falsy cache the snapshot is [{ extensions: {} }], in which
    a unit has no historical records, as every unit [lang/name] has none,
    except that reading a unit named like a property of
    [Object.prototype], such as [constructor], makes [getAuthors] throw. *)
Theorem loadHistoricalCommits_cached
  (env : Env) (cache cache' : option snapshotData) (data : snapshotData) :
  loadHistoricalCommits env cache = (Returns data, cache') ->
  cache' = Some data
  /\ (truthyData data = true ->
      forall envs,
        loadEach envs cache' = (map (fun _ => Returns data) envs, cache'))
  /\ (truthyData data = false ->
      forall env',
        loadHistoricalCommits env' cache'
        = match historicalCommitsFile env' with
          | Absent => (Returns defaultSnapshot, Some defaultSnapshot)
          | Present (Returns data') => (Returns data', Some data')
          | Present Throws => (Throws, cache')
          end)
  /\ (historicalCommitsFile env = Absent ->
      (forall d, cache = Some d -> truthyData d = false) ->
      data = defaultSnapshot
      /\ (forall extensionPath,
             readHistorical data extensionPath
             = if inheritsKey extensionPath then Throws else Returns [])
      /\ (forall lang name,
             readHistorical data (String.append lang (String "/" name))
             = Returns [])
      /\ readHistorical data "constructor" = Throws).
Proof.
  intros Hload.
  assert (Hc := loadHistoricalCommits_cache _ _ _ _ Hload). subst cache'.
  split; [reflexivity|]. split; [|split].
  - intros Ht envs. induction envs as [|env' envs IH]; [reflexivity|].
    cbn [loadEach map].
    rewrite (loadHistoricalCommits_truthy env' data Ht), IH. reflexivity.
  - intros Hf env'. rewrite loadHistoricalCommits_falsy.
    + reflexivity.
    + now intros d [= <-].
  - intros Hfile Hfalsy.
    rewrite (loadHistoricalCommits_falsy _ _ Hfalsy) in Hload.
    unfold readSnapshot in Hload. rewrite Hfile in Hload.
    injection Hload as <-. split; [reflexivity|]. split; [reflexivity|].
    split; [|reflexivity]. intros lang name.
    cbn [readHistorical defaultSnapshot JsMap.get].
    now rewrite inheritsKey_slash.
Qed.

Lemma loadHistoricalCommits_cached_witness :
  loadHistoricalCommits sampleEnv None
  = (Returns sampleSnapshot, Some sampleSnapshot)
  /\ forall envs,
       loadEach envs (Some sampleSnapshot)
       = (map (fun _ => Returns sampleSnapshot) envs, Some sampleSnapshot).
Proof.
  split; [reflexivity|].
  exact (proj1 (proj2 (loadHistoricalCommits_cached sampleEnv None
                         (Some sampleSnapshot) sampleSnapshot eq_refl))
           eq_refl).
Defined.

(** ** [getAuthors] from the environment *)

Lemma getKeiyoushiCommits_liveLines (env : Env) (extensionPath : string) :
  getKeiyoushiCommits env extensionPath
  = Returns (map toContributor
               (tallyLines (rev (liveLines env extensionPath)))).
Proof.
  unfold getKeiyoushiCommits, liveLines, parseLog, JsMap.entries.
  destruct (existsSync env _); [|reflexivity].
  destruct (execSync env _); reflexivity.
Qed.

Lemma getAuthors_liveLines
  (localeCompare : string -> string -> comparison)
  (env : Env) (cache cache' : option snapshotData) (data : snapshotData)
  (extensionPath : string) (historical : list ContributorData.t) :
  loadHistoricalCommits env cache = (Returns data, cache') ->
  readHistorical data extensionPath = Returns historical ->
  getAuthors localeCompare env cache extensionPath
  = (Returns
       (getAuthorsFrom localeCompare historical
          (map toContributor
             (tallyLines (rev (liveLines env extensionPath))))),
     cache').
Proof.
  intros Hload Hread. unfold getAuthors.
  now rewrite Hload, Hread, getKeiyoushiCommits_liveLines.
Qed.

Lemma getAuthors_again
  (localeCompare : string -> string -> comparison)
  (env : Env) (cache cache' : option snapshotData) (extensionPath : string)
  (r : outcome (list AuthorOutput.t)) :
  getAuthors localeCompare env cache extensionPath = (r, cache') ->
  getAuthors localeCompare env cache' extensionPath = (r, cache').
Proof.
  unfold getAuthors.
  destruct (loadHistoricalCommits env cache) as [r0 c0] eqn:E.
  apply loadHistoricalCommits_again in E.
  destruct r0; intros [= <- <-]; now rewrite E.
Qed.

Lemma liveLines_iso (env : Env) (extensionPath : string) :
  (forall line e n d,
      In line (liveLines env extensionPath) ->
      lineFields line = Some (e, n, d) -> isTimestamp d) ->
  Forall isoRecord
    (map toContributor (tallyLines (rev (liveLines env extensionPath)))).
Proof.
  unfold liveLines.
  destruct (existsSync env _); [|constructor].
  destruct (execSync env _) as [output|]; [|constructor].
  apply parseLog_iso.
Qed.

Lemma getAuthorsFrom_codeUnit
  (localeCompare : string -> string -> comparison)
  (historical keiyoushi : list ContributorData.t) :
  collatesDates localeCompare ->
  Forall isoRecord historical -> Forall isoRecord keiyoushi ->
  getAuthorsFrom localeCompare historical keiyoushi
  = sortAuthors String.compare
      (JsMap.values (byIdentity (mergeSources historical keiyoushi))).
Proof.
  intros Hcoll Hh Hk. unfold getAuthorsFrom. apply sortAuthors_ext.
  intros a b Ha Hb.
  assert (Hiso := byIdentity_iso _ (byEmail_iso _ _ Hh Hk)).
  rewrite Forall_forall in Hiso. unfold compareAuthors.
  apply Hcoll; [now apply (Hiso a)|now apply (Hiso b)].
Qed.

(** X9. Let the snapshot load, from the cache or from the file, and
    hold for the unit an array of records whose dates are ISO dates; let
    the collation agree with the order of code units on ISO dates, and let
    every well-formed line that [git log] prints carry an ISO timestamp.
    Then [getAuthors] returns, whether the query succeeds or not, a list
    in ascending order of [firstCommit], and leaves the snapshot in the
    cache. *)
Theorem getAuthors_env_sorted
  (localeCompare : string -> string -> comparison)
  (env : Env) (cache cache' : option snapshotData) (data : snapshotData)
  (extensionPath : string) (historical : list ContributorData.t) :
  collatesDates localeCompare ->
  loadHistoricalCommits env cache = (Returns data, cache') ->
  readHistorical data extensionPath = Returns historical ->
  Forall isoRecord historical ->
  (forall line e n d,
      In line (liveLines env extensionPath) ->
      lineFields line = Some (e, n, d) -> isTimestamp d) ->
  exists authors,
    getAuthors localeCompare env cache extensionPath
    = (Returns authors, Some data)
    /\ Sorted authorLe authors.
Proof.
  intros Hcoll Hload Hread Hh Hts.
  rewrite (getAuthors_liveLines _ _ _ _ _ _ _ Hload Hread).
  rewrite (loadHistoricalCommits_cache _ _ _ _ Hload).
  eexists. split; [reflexivity|].
  rewrite (getAuthorsFrom_codeUnit _ _ _ Hcoll Hh (liveLines_iso _ _ Hts)).
  apply sortAuthors_Sorted.
Qed.

(** X10. Let the snapshot load, from the cache or from the file, and
    hold for the unit an array of records with pairwise different
    addresses.  Then [getAuthors] returns authors whose commit counts add
    up to the historical counts plus one for every well-formed line
    printed by [git log]; when the query fails, to the historical
    counts. *)
Theorem getAuthors_env_total
  (localeCompare : string -> string -> comparison)
  (env : Env) (cache cache' : option snapshotData) (data : snapshotData)
  (extensionPath : string) (historical : list ContributorData.t) :
  loadHistoricalCommits env cache = (Returns data, cache') ->
  readHistorical data extensionPath = Returns historical ->
  NoDup (emails historical) ->
  exists authors,
    getAuthors localeCompare env cache extensionPath
    = (Returns authors, Some data)
    /\ sumZ AuthorOutput.commits authors
       = sumZ ContributorData.commits historical
         + Z.of_nat (List.length (validFields (liveLines env extensionPath)))
    /\ (existsSync env (String.append "src/" extensionPath) = false
        \/ execSync env (String.append "src/" extensionPath) = Throws ->
        sumZ AuthorOutput.commits authors
        = sumZ ContributorData.commits historical).
Proof.
  intros Hload Hread Hnd.
  rewrite (getAuthors_liveLines _ _ _ _ _ _ _ Hload Hread).
  rewrite (loadHistoricalCommits_cache _ _ _ _ Hload).
  eexists. split; [reflexivity|].
  assert (Hsum : sumZ AuthorOutput.commits
                   (getAuthorsFrom localeCompare historical
                      (map toContributor
                         (tallyLines (rev (liveLines env extensionPath)))))
                 = sumZ ContributorData.commits historical
                   + Z.of_nat
                       (List.length
                          (validFields (liveLines env extensionPath)))).
  { unfold getAuthorsFrom.
    rewrite (sumZ_Permutation _ _ _ (sortAuthors_Permutation _ _)).
    rewrite total_byIdentity, (total_byEmail _ _ Hnd).
    rewrite sumZ_toContributor, tallyLines_total, length_validFields_rev.
    reflexivity. }
  split; [exact Hsum|].
  intros Hfail. rewrite Hsum.
  assert (Hl : liveLines env extensionPath = []).
  { unfold liveLines. destruct Hfail as [-> | ->]; [reflexivity|].
    now destruct (existsSync env _). }
  rewrite Hl. simpl. lia.
Qed.

Lemma getAuthors_env_sorted_witness :
  collatesDates codeUnitCompare
  /\ loadHistoricalCommits sampleEnvLive None
     = (Returns sampleSnapshot, Some sampleSnapshot)
  /\ readHistorical sampleSnapshot "en/mangapill" = Returns sampleHistorical
  /\ Forall isoRecord sampleHistorical
  /\ exists authors,
       getAuthors codeUnitCompare sampleEnvLive None "en/mangapill"
       = (Returns authors, Some sampleSnapshot)
       /\ Sorted authorLe authors.
Proof.
  assert (H1 : collatesDates codeUnitCompare) by (intros a b _ _; reflexivity).
  assert (H2 : Forall isoRecord sampleHistorical) by (repeat constructor).
  assert (H3 : forall line e n d,
             In line (liveLines sampleEnvLive "en/mangapill") ->
             lineFields line = Some (e, n, d) -> isTimestamp d).
  { intros line e n d Hin Hf.
    change (liveLines sampleEnvLive "en/mangapill")
      with ["alice@x.com|Alice|2024-03-01T10:00:00+00:00";
            "bob@x.com|Bob Smith|";
            "alice@x.com|Alice|2024-02-01T09:30:00+00:00"] in Hin.
    destruct Hin as [<-|[<-|[<-|[]]]]; vm_compute in Hf;
      try discriminate Hf; injection Hf as <- <- <-.
    - exists "2024-03-01", "10:00:00+00:00". split; reflexivity.
    - exists "2024-02-01", "09:30:00+00:00". split; reflexivity. }
  split; [exact H1|]. split; [reflexivity|]. split; [reflexivity|].
  split; [exact H2|].
  exact (getAuthors_env_sorted codeUnitCompare sampleEnvLive None
           (Some sampleSnapshot) sampleSnapshot "en/mangapill"
           sampleHistorical H1 eq_refl eq_refl H2 H3).
Defined.

Lemma getAuthors_env_total_witness :
  loadHistoricalCommits sampleEnvLive None
  = (Returns sampleSnapshot, Some sampleSnapshot)
  /\ readHistorical sampleSnapshot "en/mangapill" = Returns sampleHistorical
  /\ NoDup (emails sampleHistorical)
  /\ exists authors,
       getAuthors codeUnitCompare sampleEnvLive None "en/mangapill"
       = (Returns authors, Some sampleSnapshot)
       /\ sumZ AuthorOutput.commits authors
          = sumZ ContributorData.commits sampleHistorical
            + Z.of_nat
                (List.length
                   (validFields (liveLines sampleEnvLive "en/mangapill"))).
Proof.
  assert (H : NoDup (emails sampleHistorical)) by distinct_emails.
  split; [reflexivity|]. split; [reflexivity|]. split; [exact H|].
  destruct (getAuthors_env_total codeUnitCompare sampleEnvLive None
              (Some sampleSnapshot) sampleSnapshot "en/mangapill"
              sampleHistorical eq_refl eq_refl H) as (authors & H1 & H2 & _).
  exists authors. split; [exact H1|exact H2].
Defined.

(** ** Failure of the query *)

Lemma byIdentity_standsFor (records : list ContributorData.t) (k : string)
  (a : AuthorOutput.t) :
  In (k, a) (byIdentity records) -> standsFor a (group recordKey k records).
Proof.
  intros Hin. apply byIdentity_entry in Hin.
  destruct Hin as (x & xs & Hg & ->). rewrite Hg. split; [|split].
  - rewrite commits_fold_mergeIdentity. reflexivity.
  - apply github_group.
  - destruct (fold_merge_first_min mergeIdentity AuthorOutput.firstCommit
                ContributorData.firstCommit mergeIdentity_date newIdentity
                (fun _ => eq_refl) AuthorOutput.name ContributorData.name
                mergeIdentity_name (fun _ => eq_refl) x xs)
      as (g1 & c & g2 & Hsplit & Hn & Hd & Hlt & Hle).
    exists g1, c, g2. repeat split; assumption.
Qed.

Lemma mergeSources_alone (historical : list ContributorData.t) :
  NoDup (emails historical) -> mergeSources historical [] = historical.
Proof.
  intros Hnd. unfold mergeSources.
  rewrite (byEmail_upsert _ _ Hnd), app_nil_r.
  rewrite (fold_upsert_distinct _ _ _ _ Hnd). unfold JsMap.values.
  rewrite map_map. apply map_id.
Qed.

Lemma getAuthorsFrom_nil
  (localeCompare : string -> string -> comparison)
  (historical keiyoushi : list ContributorData.t) :
  getAuthorsFrom localeCompare historical keiyoushi = [] ->
  historical ++ keiyoushi = [].
Proof.
  intros Hnil. destruct (historical ++ keiyoushi) as [|c l] eqn:E;
    [reflexivity|exfalso].
  assert (Hc : In (ContributorData.email c)
                 (JsMap.keys (byEmail historical keiyoushi))).
  { apply In_keys_byEmail. rewrite E. now left. }
  unfold JsMap.keys in Hc. apply in_map_iff in Hc.
  destruct Hc as ([e r] & _ & Hr).
  assert (Hr' : In r (JsMap.values (byEmail historical keiyoushi)))
    by (unfold JsMap.values; apply in_map_iff; now exists (e, r)).
  destruct (byIdentity_covers _ _ Hr') as [a Ha].
  assert (Ha' : In a (getAuthorsFrom localeCompare historical keiyoushi))
    by (apply In_getAuthorsFrom; now exists (recordKey r)).
  rewrite Hnil in Ha'. destruct Ha'.
Qed.

(** C7. When the source directory of the unit does not exist, or the
    [git log] call throws, [getKeiyoushiCommits] returns the empty array,
    and in no environment does it throw.  [getAuthors] then throws only
    when loading the snapshot or reading the entry of the unit throws;
    it returns whenever the snapshot loads and holds for the unit an
    array of records (or nothing), leaving the snapshot in the cache, and
    what it returns is made of these records alone: the
    list is empty exactly when there are none; with pairwise different
    addresses every author stands for the historical records of one key,
    with the sum of their counts, their first handle and the name and date
    of the first of them with the least date, every historical record has
    such an author for its key, and the counts add up to the historical
    counts; with pairwise different keys the list is the sort of the
    historical records, one author for each. *)
Theorem query_failure_gives_no_commits
  (localeCompare : string -> string -> comparison)
  (env : Env) (cache : option snapshotData) (extensionPath : string) :
  existsSync env (String.append "src/" extensionPath) = false
  \/ execSync env (String.append "src/" extensionPath) = Throws ->
  getKeiyoushiCommits env extensionPath = Returns []
  /\ (forall env' path', exists l, getKeiyoushiCommits env' path' = Returns l)
  /\ (fst (getAuthors localeCompare env cache extensionPath) = Throws <->
      fst (loadHistoricalCommits env cache) = Throws
      \/ exists data,
           fst (loadHistoricalCommits env cache) = Returns data
           /\ readHistorical data extensionPath = Throws)
  /\ forall data cache' historical,
       loadHistoricalCommits env cache = (Returns data, cache') ->
       readHistorical data extensionPath = Returns historical ->
       exists authors,
         getAuthors localeCompare env cache extensionPath
         = (Returns authors, Some data)
         /\ (authors = [] <-> historical = [])
         /\ (NoDup (emails historical) ->
             (forall a, In a authors ->
                        exists k, standsFor a (group recordKey k historical))
             /\ (forall c, In c historical ->
                           exists a,
                             In a authors
                             /\ standsFor a
                                  (group recordKey (recordKey c) historical))
             /\ sumZ AuthorOutput.commits authors
                = sumZ ContributorData.commits historical)
         /\ (NoDup (map recordKey historical) ->
             authors = sortAuthors localeCompare (map newIdentity historical)).
Proof.
  intros Hfail.
  assert (Hk : getKeiyoushiCommits env extensionPath = Returns []).
  { unfold getKeiyoushiCommits.
    destruct Hfail as [-> | ->]; [reflexivity|].
    now destruct (existsSync env _). }
  split; [exact Hk|]. split.
  { intros env' path'. unfold getKeiyoushiCommits.
    destruct (existsSync env' _); simpl; [|eauto].
    destruct (execSync env' _); eauto. }
  split.
  { unfold getAuthors. rewrite Hk.
    destruct (loadHistoricalCommits env cache) as [[data|] c]; cbn [fst].
    - destruct (readHistorical data extensionPath) as [historical|] eqn:Hread.
      + split; [discriminate|].
        intros [H|(d & [= <-] & H)]; [discriminate H|congruence].
      + split; [|reflexivity]. intros _. right. now exists data.
    - split; [now left|reflexivity]. }
  intros data cache' historical Hload Hread.
  exists (getAuthorsFrom localeCompare historical []).
  split; [|split; [|split]].
  - unfold getAuthors. rewrite Hload, Hread, Hk.
    now rewrite (loadHistoricalCommits_cache _ _ _ _ Hload).
  - split.
    + intros Hnil. apply getAuthorsFrom_nil in Hnil.
      now rewrite app_nil_r in Hnil.
    + now intros ->.
  - intros Hnd.
    assert (Hin : forall a,
               In a (getAuthorsFrom localeCompare historical []) <->
               exists k, In (k, a) (byIdentity historical)).
    { intros a. rewrite In_getAuthorsFrom.
      change (JsMap.values (byEmail historical []))
        with (mergeSources historical []).
      now rewrite (mergeSources_alone _ Hnd). }
    split; [|split].
    + intros a Ha. apply Hin in Ha. destruct Ha as [k Ha].
      exists k. now apply byIdentity_standsFor.
    + intros c Hc. destruct (byIdentity_covers _ _ Hc) as [a Ha].
      exists a. split; [apply Hin; now exists (recordKey c)|].
      now apply byIdentity_standsFor.
    + unfold getAuthorsFrom.
      rewrite (sumZ_Permutation _ _ _ (sortAuthors_Permutation _ _)).
      rewrite total_byIdentity, (total_byEmail _ _ Hnd). simpl. lia.
  - intros Hkeys.
    assert (Hnd : NoDup (emails historical))
      by (rewrite recordKey_emails in Hkeys; now apply NoDup_map_inv in Hkeys).
    unfold getAuthorsFrom.
    change (JsMap.values (byEmail historical []))
      with (mergeSources historical []).
    rewrite (mergeSources_alone _ Hnd), byIdentity_upsert.
    rewrite (fold_upsert_distinct _ _ _ _ Hkeys).
    unfold JsMap.values. rewrite map_map. reflexivity.
Qed.

Lemma query_failure_gives_no_commits_witness :
  getKeiyoushiCommits sampleEnv "en/mangapill" = Returns []
  /\ exists authors,
       getAuthors codeUnitCompare sampleEnv None "en/mangapill"
       = (Returns authors, Some sampleSnapshot)
       /\ (authors = [] <-> sampleHistorical = [])
       /\ sumZ AuthorOutput.commits authors
          = sumZ ContributorData.commits sampleHistorical.
Proof.
  destruct (query_failure_gives_no_commits codeUnitCompare sampleEnv None
              "en/mangapill" (or_introl eq_refl)) as (H1 & _ & _ & H2).
  split; [exact H1|].
  destruct (H2 sampleSnapshot (Some sampleSnapshot) sampleHistorical
              eq_refl eq_refl) as (authors & Ha & Hnil & Hnd & _).
  exists authors. split; [exact Ha|]. split; [exact Hnil|].
  apply Hnd. distinct_emails.
Defined.

(** ** processManifest *)

Lemma set_set {V : Type} (k : string) (v v' : V) (m : JsMap.t V) :
  JsMap.set k v (JsMap.set k v' m) = JsMap.set k v m.
Proof.
  induction m as [|[k0 v0] m IH]; simpl.
  - now rewrite String.eqb_refl.
  - destruct (String.eqb k k0) eqn:E; simpl.
    + now rewrite String.eqb_refl.
    + now rewrite E, IH.
Qed.


Section ManifestFacts.
Variable Value : Type.
Variable encodeAuthors : list AuthorOutput.t -> Value.
Variable pathJoin : string -> string -> string.
Variable writeFault : string -> option (failedWrite (manifestData Value)).
Variable localeCompare : string -> string -> comparison.

Lemma withAuthors_again (authors : Value)
  (manifest manifest' : manifestData Value) :
  withAuthors Value authors manifest = Returns manifest' ->
  withAuthors Value authors manifest' = Returns manifest'.
Proof.
  destruct manifest; simpl; intros [= <-]; simpl; [|reflexivity].
  now rewrite set_set.
Qed.

Lemma putFile_same (path : string) (state : fileState (manifestData Value))
  (fs : FileSystem Value) :
  putFile Value path state fs path = state.
Proof. unfold putFile. now rewrite String.eqb_refl. Qed.


Lemma putFile_twice (path p : string) (state : fileState (manifestData Value))
  (fs : FileSystem Value) :
  putFile Value path state (putFile Value path state fs) p
  = putFile Value path state fs p.
Proof. unfold putFile. now destruct (String.eqb p path). Qed.


(** X19. When the manifest of the unit is missing, [processManifest]
    returns false and writes nothing; and processing a unit a second
    time in the same environment changes nothing more: whether the second
    run starts with the cache the first one left or, as a new run of the
    script does, with the cache the first one started from, the file
    system after the second run is the file system after the first, also
    when [getAuthors] or a write throws; and a second run in the same
    process leaves the cache as the first left it. *)
Theorem processManifest_again
  (env : Env) (st : State Value) (extDir extensionPath : string) :
  let first :=
    processManifest Value encodeAuthors pathJoin writeFault localeCompare env
      st extDir extensionPath in
  (files st (pathJoin extDir "manifest.json") = Absent ->
   first = (Returns false, st))
  /\ (forall p,
         files (snd (processManifest Value encodeAuthors pathJoin writeFault
                       localeCompare env
                       (mkState (files (snd first))
                          (historicalCommitsCache (snd first)))
                       extDir extensionPath)) p
         = files (snd first) p)
  /\ (forall p,
         files (snd (processManifest Value encodeAuthors pathJoin writeFault
                       localeCompare env
                       (mkState (files (snd first))
                          (historicalCommitsCache st))
                       extDir extensionPath)) p
         = files (snd first) p)
  /\ historicalCommitsCache
       (snd (processManifest Value encodeAuthors pathJoin writeFault
               localeCompare env
               (mkState (files (snd first))
                  (historicalCommitsCache (snd first)))
               extDir extensionPath))
     = historicalCommitsCache (snd first).
Proof.
  set (run := processManifest Value encodeAuthors pathJoin writeFault
                localeCompare).
  intros first. set (manifestPath := pathJoin extDir "manifest.json").
  assert (Habsent : forall st',
             files st' manifestPath = Absent ->
             run env st' extDir extensionPath = (Returns false, st')).
  { intros st' H. subst run. unfold processManifest. fold manifestPath.
    now rewrite H. }
  assert (Hunreadable : forall st',
             files st' manifestPath = Present Throws ->
             run env st' extDir extensionPath = (Throws, st')).
  { intros st' H. subst run. unfold processManifest. fold manifestPath.
    now rewrite H. }
  split; [exact (Habsent st)|].
  assert (Hrun : forall st' manifest,
             files st' manifestPath = Present (Returns manifest) ->
             run env st' extDir extensionPath
             = match getAuthors localeCompare env (historicalCommitsCache st')
                       extensionPath with
               | (Returns authors, c) =>
                   match withAuthors Value (encodeAuthors authors) manifest with
                   | Returns manifest' =>
                       match writeFault manifestPath with
                       | None =>
                           (Returns true,
                            mkState
                              (putFile Value manifestPath
                                 (Present (Returns manifest')) (files st'))
                              c)
                       | Some LeavesFile => (Throws, mkState (files st') c)
                       | Some (LeavesState state) =>
                           (Throws,
                            mkState
                              (putFile Value manifestPath state (files st')) c)
                       end
                   | Throws => (Throws, mkState (files st') c)
                   end
               | (Throws, c) => (Throws, mkState (files st') c)
               end).
  { intros st' manifest H. subst run. unfold processManifest, writeFileSync.
    fold manifestPath. rewrite H.
    destruct (getAuthors _ _ _ _) as [[authors|] c]; [|reflexivity].
    destruct (withAuthors _ _ _); [|reflexivity].
    destruct (writeFault manifestPath) as [[|state]|]; reflexivity. }
  enough (Hboth : forall cache,
             cache = historicalCommitsCache (snd first)
             \/ cache = historicalCommitsCache st ->
             (forall p,
                 files (snd (run env (mkState (files (snd first)) cache)
                               extDir extensionPath)) p
                 = files (snd first) p)
             /\ (cache = historicalCommitsCache (snd first) ->
                 historicalCommitsCache
                   (snd (run env (mkState (files (snd first)) cache)
                           extDir extensionPath))
                 = cache)).
  { split; [|split].
    - apply (Hboth _ (or_introl eq_refl)).
    - apply (Hboth _ (or_intror eq_refl)).
    - apply (Hboth _ (or_introl eq_refl)). reflexivity. }
  subst first. clearbody run. intros cache Hcache.
  destruct (files st manifestPath) as [|[manifest|]] eqn:Hfile.
  - rewrite (Habsent st Hfile). cbn [snd].
    rewrite (Habsent (mkState (files st) cache) Hfile). now split.
  - rewrite (Hrun st manifest Hfile) in *.
    destruct (getAuthors localeCompare env (historicalCommitsCache st)
                extensionPath) as [r c] eqn:Hga.
    assert (Hga' : getAuthors localeCompare env cache extensionPath = (r, c)).
    { destruct r as [authors|];
        [destruct (withAuthors Value (encodeAuthors authors) manifest);
         [destruct (writeFault manifestPath) as [[|state]|]|]|];
        cbn [snd historicalCommitsCache] in Hcache;
        destruct Hcache as [-> | ->];
        first [exact Hga|exact (getAuthors_again _ _ _ _ _ _ Hga)]. }
    clear Hcache.
    assert (Hsecond : forall fs manifest0,
               fs manifestPath = Present (Returns manifest0) ->
               run env (mkState fs cache) extDir extensionPath
               = match r with
                 | Returns authors =>
                     match withAuthors Value (encodeAuthors authors)
                             manifest0 with
                     | Returns manifest' =>
                         match writeFault manifestPath with
                         | None =>
                             (Returns true,
                              mkState
                                (putFile Value manifestPath
                                   (Present (Returns manifest')) fs) c)
                         | Some LeavesFile => (Throws, mkState fs c)
                         | Some (LeavesState state) =>
                             (Throws,
                              mkState (putFile Value manifestPath state fs) c)
                         end
                     | Throws => (Throws, mkState fs c)
                     end
                 | Throws => (Throws, mkState fs c)
                 end).
    { intros fs manifest0 H. rewrite (Hrun (mkState fs cache) manifest0 H).
      cbn [files historicalCommitsCache]. now rewrite Hga'. }
    destruct r as [authors|].
    + destruct (withAuthors Value (encodeAuthors authors) manifest)
        as [manifest'|] eqn:Hwith.
      * destruct (writeFault manifestPath) as [[|state]|] eqn:Hw;
          cbn [snd files historicalCommitsCache].
        -- rewrite (Hsecond _ manifest Hfile), Hwith. now split.
        -- destruct state as [|[m|]].
           ++ rewrite Habsent by apply putFile_same. cbn [snd files].
              split; [reflexivity|]. now intros ->.
           ++ rewrite (Hsecond _ m) by apply putFile_same.
              destruct (withAuthors Value (encodeAuthors authors) m);
                cbn [snd files historicalCommitsCache];
                (split; [intros p|now intros ->]);
                [apply putFile_twice|reflexivity].
           ++ rewrite Hunreadable by apply putFile_same. cbn [snd files].
              split; [reflexivity|]. now intros ->.
        -- rewrite (Hsecond _ manifest') by apply putFile_same.
           rewrite (withAuthors_again _ _ _ Hwith).
           cbn [snd files historicalCommitsCache]. split; [|now intros ->].
           intros p. apply putFile_twice.
      * cbn [snd files historicalCommitsCache].
        rewrite (Hsecond _ manifest Hfile), Hwith. now split.
    + cbn [snd files historicalCommitsCache].
      rewrite (Hsecond _ manifest Hfile). now split.
  - rewrite (Hunreadable st Hfile). cbn [snd].
    rewrite (Hunreadable (mkState (files st) cache) Hfile). now split.
Qed.
End ManifestFacts.


(** * Properties of the build report *)

(** ** escapeHtml *)

Lemma replaceAll_append (c : ascii) (by_ a b : string) :
  replaceAll c by_ (String.append a b)
  = String.append (replaceAll c by_ a) (replaceAll c by_ b).
Proof.
  induction a as [|x a IH]; [reflexivity|].
  cbn [String.append replaceAll]. rewrite IH.
  destruct (Ascii.eqb x c); [now rewrite append_assoc|reflexivity].
Qed.

Lemma replaceAll_flatMap (c : ascii) (by_ : string) (f : ascii -> string)
  (s : string) :
  replaceAll c by_ (flatMapString f s)
  = flatMapString (fun x => replaceAll c by_ (f x)) s.
Proof.
  induction s as [|x s IH]; [reflexivity|].
  cbn [flatMapString]. now rewrite replaceAll_append, IH.
Qed.

Lemma flatMapString_id (s : string) :
  flatMapString (fun x => String x EmptyString) s = s.
Proof. induction s as [|x s IH]; [reflexivity|]. cbn. now rewrite IH. Qed.

Lemma flatMapString_ext (f g : ascii -> string) (s : string) :
  (forall x, f x = g x) -> flatMapString f s = flatMapString g s.
Proof.
  intros H. induction s as [|x s IH]; [reflexivity|].
  cbn [flatMapString]. now rewrite H, IH.
Qed.

Lemma escapeChar_passes (x : ascii) :
  replaceAll "'" "&#039;"
    (replaceAll "034" "&quot;"
       (replaceAll ">" "&gt;"
          (replaceAll "<" "&lt;"
             (replaceAll "&" "&amp;" (String x EmptyString)))))
  = escapeChar x.
Proof.
  unfold escapeChar. cbn [replaceAll].
  destruct (Ascii.eqb x "&") eqn:E1; [reflexivity|]. cbn [replaceAll].
  destruct (Ascii.eqb x "<") eqn:E2; [reflexivity|]. cbn [replaceAll].
  destruct (Ascii.eqb x ">") eqn:E3; [reflexivity|]. cbn [replaceAll].
  destruct (Ascii.eqb x "034") eqn:E4; [reflexivity|]. cbn [replaceAll].
  destruct (Ascii.eqb x "'") eqn:E5; reflexivity.
Qed.

Lemma escapeHtml_flatMap (str : string) :
  escapeHtml str = flatMapString escapeChar str.
Proof.
  unfold escapeHtml. rewrite <- (flatMapString_id str) at 1.
  rewrite !replaceAll_flatMap. apply flatMapString_ext, escapeChar_passes.
Qed.

Lemma hasMarkup_append (a b : string) :
  hasMarkup (String.append a b) = hasMarkup a || hasMarkup b.
Proof.
  unfold hasMarkup. induction a as [|x a IH]; [reflexivity|].
  cbn [String.append list_ascii_of_string existsb].
  now rewrite IH, orb_assoc.
Qed.

Lemma hasMarkup_escapeChar (x : ascii) : hasMarkup (escapeChar x) = false.
Proof.
  unfold escapeChar.
  destruct (Ascii.eqb x "&") eqn:E1; [reflexivity|].
  destruct (Ascii.eqb x "<") eqn:E2; [reflexivity|].
  destruct (Ascii.eqb x ">") eqn:E3; [reflexivity|].
  destruct (Ascii.eqb x "034") eqn:E4; [reflexivity|].
  destruct (Ascii.eqb x "'") eqn:E5; [reflexivity|].
  unfold hasMarkup, isMarkup. cbn [list_ascii_of_string existsb].
  now rewrite E2, E3, E4, E5.
Qed.

(** X20. The five replacements of [escapeHtml] do not interfere: the
    result is the input with every ['&'], ['<'], ['>'], double quote and
    apostrophe replaced by its entity and every other character kept; it
    holds no ['<'], ['>'], double quote or apostrophe, and an input
    without the five characters is returned as it is. *)
Theorem escapeHtml_characterwise (str : string) :
  escapeHtml str = flatMapString escapeChar str
  /\ hasMarkup (escapeHtml str) = false
  /\ (hasSpecial str = false -> escapeHtml str = str).
Proof.
  split; [apply escapeHtml_flatMap|]. rewrite escapeHtml_flatMap. split.
  - induction str as [|x s IH]; [reflexivity|].
    cbn [flatMapString]. now rewrite hasMarkup_append, hasMarkup_escapeChar, IH.
  - unfold hasSpecial. induction str as [|x s IH]; [reflexivity|].
    cbn [list_ascii_of_string existsb flatMapString]. intros H.
    apply orb_false_iff in H. destruct H as [Hx Hs].
    apply orb_false_iff in Hx. destruct Hx as [Hm Hamp].
    unfold isMarkup in Hm. repeat (apply orb_false_iff in Hm; destruct Hm as [Hm ?]).
    unfold escapeChar at 1.
    repeat match goal with H : Ascii.eqb x _ = false |- _ => rewrite H; clear H end.
    cbn [String.append]. now rewrite (IH Hs).
Qed.

Lemma escapeChar_inj (x y : ascii) (a b : string) :
  String.append (escapeChar x) a = String.append (escapeChar y) b ->
  x = y /\ a = b.
Proof.
  unfold escapeChar.
  destruct (Ascii.eqb_spec x "&") as [->|X1];
    [|destruct (Ascii.eqb_spec x "<") as [->|X2];
      [|destruct (Ascii.eqb_spec x ">") as [->|X3];
        [|destruct (Ascii.eqb_spec x "034") as [->|X4];
          [|destruct (Ascii.eqb_spec x "'") as [->|X5]]]]];
    (destruct (Ascii.eqb_spec y "&") as [->|Y1];
     [|destruct (Ascii.eqb_spec y "<") as [->|Y2];
       [|destruct (Ascii.eqb_spec y ">") as [->|Y3];
         [|destruct (Ascii.eqb_spec y "034") as [->|Y4];
           [|destruct (Ascii.eqb_spec y "'") as [->|Y5]]]]]);
    cbn [String.append]; intros H; try discriminate H;
    injection H as; subst; try congruence; now split.
Qed.

(** X21. [escapeHtml] loses nothing: two different strings have
    different escaped forms. *)
Theorem escapeHtml_injective (s t : string) :
  escapeHtml s = escapeHtml t -> s = t.
Proof.
  rewrite !escapeHtml_flatMap. revert t.
  induction s as [|x s IH]; intros [|y t]; cbn [flatMapString].
  - reflexivity.
  - intros H. exfalso. unfold escapeChar at 1 in H.
    repeat match type of H with
           | context [if ?c then _ else _] => destruct c
           end; discriminate H.
  - intros H. exfalso. unfold escapeChar at 1 in H.
    repeat match type of H with
           | context [if ?c then _ else _] => destruct c
           end; discriminate H.
  - intros H. apply escapeChar_inj in H. destruct H as [-> H].
    now rewrite (IH t H).
Qed.

Lemma escapeHtml_injective_witness :
  escapeHtml "a < b" = escapeHtml "a < b" /\ "a < b" = "a < b".
Proof.
  split; [reflexivity|].
  exact (escapeHtml_injective "a < b" "a < b" eq_refl).
Defined.

(** ** The summary *)

Lemma countIf_cons (p : ExtensionResult.t -> bool) (e : ExtensionResult.t)
  (l : list ExtensionResult.t) :
  countIf p (e :: l) = (if p e then 1 else 0) + countIf p l.
Proof.
  unfold countIf. cbn [filter]. destruct (p e); cbn [List.length]; lia.
Qed.

Lemma countIf_nonneg (p : ExtensionResult.t -> bool)
  (l : list ExtensionResult.t) : 0 <= countIf p l.
Proof. unfold countIf. lia. Qed.

Lemma countIf_le (p : ExtensionResult.t -> bool)
  (l : list ExtensionResult.t) : countIf p l <= Z.of_nat (List.length l).
Proof. unfold countIf. assert (H := filter_length_le p l). lia. Qed.

(** X22. In the summary of a report the numbers of built, failed and
    skipped extensions add up to the total; no extension is counted both
    among those whose tests passed and among those with a failed test, so
    these two numbers together do not exceed the total, nor does the number
    of tested extensions. *)
Theorem summary_adds_up (allExtensions : list ExtensionResult.t) :
  let s := summaryOf allExtensions in
  Summary.built s + Summary.failed s + Summary.skipped s = Summary.total s
  /\ Summary.passed s + Summary.testFailed s <= Summary.total s
  /\ Summary.tested s <= Summary.total s
  /\ forall e, In e allExtensions ->
               noTestFailed e && someTestFailed e = false.
Proof.
  cbv zeta. cbn [summaryOf Summary.built Summary.failed Summary.skipped
                   Summary.total Summary.passed Summary.testFailed
                   Summary.tested].
  assert (Hexcl : forall e, noTestFailed e && someTestFailed e = false).
  { intros e. unfold noTestFailed, someTestFailed.
    destruct (ExtensionResult.test e) as [t|]; [|reflexivity].
    destruct (TestRun.summary t) as [s|]; [|reflexivity].
    destruct (TestSummary.failed s) as [n|]; [|reflexivity].
    destruct (Z.eqb_spec n 0) as [->|]; [reflexivity|]. reflexivity. }
  split; [|split; [|split; [apply countIf_le|intros e _; apply Hexcl]]].
  - induction allExtensions as [|e l IH]; [reflexivity|].
    rewrite !countIf_cons. cbn [List.length]. rewrite Nat2Z.inj_succ.
    assert (Hone : (if hasStatus Status.success e then 1 else 0)
                   + (if hasStatus Status.failed e then 1 else 0)
                   + (if hasStatus Status.skipped e then 1 else 0) = 1)
      by (unfold hasStatus; now destruct (ExtensionResult.status e)).
    lia.
  - induction allExtensions as [|e l IH]; [unfold countIf; simpl; lia|].
    rewrite !countIf_cons. cbn [List.length]. rewrite Nat2Z.inj_succ.
    specialize (Hexcl e).
    destruct (noTestFailed e), (someTestFailed e); try discriminate; lia.
Qed.

(** ** The duration *)

Lemma fold_left_sum (f : ExtensionResult.t -> Z) (l : list ExtensionResult.t) :
  forall acc, fold_left (fun sum e => sum + f e) l acc = acc + sumZ f l.
Proof.
  induction l as [|e l IH]; intros acc; simpl; [lia|]. rewrite IH. lia.
Qed.

Lemma sumZ_nonneg {X : Type} (f : X -> Z) (l : list X) :
  Forall (fun x => 0 <= f x) l -> 0 <= sumZ f l.
Proof. induction 1; simpl; lia. Qed.

(** X23. The total build time is the sum of the build times of the
    extensions, an extension without one counting for nothing.  When no
    build time is negative, the minutes and seconds of the duration are
    the whole minutes and the whole seconds beyond them: the seconds lie
    between 0 and 59, and minutes and seconds together fall short of the
    total by less than a second. *)
Theorem duration_minutes_seconds (allExtensions : list ExtensionResult.t) :
  Forall (fun e => 0 <= buildTimeOf e) allExtensions ->
  let t := totalBuildTimeMs allExtensions in
  t = sumZ buildTimeOf allExtensions
  /\ 0 <= durationMinutes t
  /\ 0 <= durationSeconds t < 60
  /\ 60000 * durationMinutes t + 1000 * durationSeconds t <= t
     < 60000 * durationMinutes t + 1000 * durationSeconds t + 1000.
Proof.
  intros Hpos. cbv zeta.
  assert (Ht : totalBuildTimeMs allExtensions = sumZ buildTimeOf allExtensions).
  { unfold totalBuildTimeMs.
    change (fun (sum : Z) (e : ExtensionResult.t) =>
              sum + match ExtensionResult.buildTimeMs e with
                    | Some ms => ms
                    | None => 0
                    end)
      with (fun (sum : Z) (e : ExtensionResult.t) => sum + buildTimeOf e).
    now rewrite fold_left_sum. }
  split; [exact Ht|]. rewrite Ht.
  assert (H0 := sumZ_nonneg _ _ Hpos).
  set (t := sumZ buildTimeOf allExtensions) in *.
  unfold durationMinutes, durationSeconds.
  rewrite (Z.rem_mod_nonneg t 60000) by lia.
  assert (Hm := Z.mod_pos_bound t 60000 ltac:(lia)).
  assert (Hd := Z.div_mod t 60000 ltac:(lia)).
  assert (Hs := Z.mod_pos_bound (t mod 60000) 1000 ltac:(lia)).
  assert (Hd' := Z.div_mod (t mod 60000) 1000 ltac:(lia)).
  assert (Hq : 0 <= t / 60000) by (apply Z.div_pos; lia).
  assert (Hq' : 0 <= t mod 60000 / 1000) by (apply Z.div_pos; lia).
  repeat split; try lia.
Qed.

Lemma duration_minutes_seconds_witness :
  Forall (fun e => 0 <= buildTimeOf e) sampleExtensions
  /\ totalBuildTimeMs sampleExtensions = 61500
  /\ 0 <= durationSeconds (totalBuildTimeMs sampleExtensions) < 60.
Proof.
  assert (H : Forall (fun e => 0 <= buildTimeOf e) sampleExtensions)
    by (repeat constructor; discriminate).
  split; [exact H|]. split; [reflexivity|].
  exact (proj1 (proj2 (proj2 (duration_minutes_seconds sampleExtensions H)))).
Defined.

(** ** The fields of a parsed record *)

Lemma split_lacks_sep (sep : ascii) (s : string) :
  Forall (fun piece => lacks sep piece = true) (split sep s).
Proof.
  induction s as [|c s IH]; cbn [split].
  - repeat constructor.
  - destruct (Ascii.eqb c sep) eqn:E; [constructor; [reflexivity|exact IH]|].
    destruct (split sep s) as [|piece rest]; [repeat constructor|].
    + unfold lacks. cbn [list_ascii_of_string forallb]. now rewrite E.
    + inversion IH as [|? ? Hp Hr]; subst. constructor; [|exact Hr].
      unfold lacks in *. cbn [list_ascii_of_string forallb]. now rewrite E, Hp.
Qed.

Lemma split_lacks_other (sep x : ascii) (s : string) :
  lacks x s = true ->
  Forall (fun piece => lacks x piece = true) (split sep s).
Proof.
  unfold lacks. induction s as [|c s IH]; cbn [split list_ascii_of_string forallb].
  - intros _. repeat constructor.
  - intros H. apply andb_true_iff in H. destruct H as [Hc Hs].
    specialize (IH Hs).
    destruct (Ascii.eqb c sep); [constructor; [reflexivity|exact IH]|].
    destruct (split sep s) as [|piece rest].
    + repeat constructor. cbn [list_ascii_of_string forallb]. now rewrite Hc.
    + inversion IH as [|? ? Hp Hr]; subst. constructor; [|exact Hr].
      cbn [list_ascii_of_string forallb]. now rewrite Hc, Hp.
Qed.

Lemma split_nonempty (sep : ascii) (s : string) : split sep s <> [].
Proof.
  destruct s as [|c s]; cbn [split]; [discriminate|].
  destruct (Ascii.eqb c sep); [discriminate|].
  destruct (split sep s); discriminate.
Qed.

Lemma lineFields_fields (line e n d : string) :
  lineFields line = Some (e, n, d) ->
  Forall (fun field => field <> EmptyString /\ lacks "|" field = true)
    [e; n; d].
Proof.
  unfold lineFields. set (fields := split "|" line).
  assert (Hl : Forall (fun piece => lacks "|" piece = true) fields)
    by apply split_lacks_sep.
  rewrite Forall_forall in Hl.
  destruct (nth_error fields 0) as [e'|] eqn:E0; [|discriminate].
  destruct (nth_error fields 1) as [n'|] eqn:E1; [|discriminate].
  destruct (nth_error fields 2) as [d'|] eqn:E2; [|discriminate].
  apply nth_error_In, Hl in E0. apply nth_error_In, Hl in E1.
  apply nth_error_In, Hl in E2.
  destruct e' as [|? ?], n' as [|? ?], d' as [|? ?]; cbn; try discriminate.
  intros [= <- <- <-]. repeat constructor; try discriminate; assumption.
Qed.

Lemma dateOnly_lacks (d : string) :
  lacks "|" d = true ->
  lacks "|" (dateOnly d) = true /\ lacks "T" (dateOnly d) = true.
Proof.
  intros Hd. unfold dateOnly.
  assert (H1 := split_lacks_other "T" "|" d Hd).
  assert (H2 := split_lacks_sep "T" d).
  destruct (split "T" d) as [|piece rest] eqn:E;
    [now apply split_nonempty in E|].
  inversion H1; inversion H2; subst. now split.
Qed.

(** X24. Every record built from a log output has a non-empty address
    and a non-empty name, neither of which contains ['|'], and a date
    that contains neither ['|'] nor ['T']. *)
Theorem parseLog_fields (output : string) (c : ContributorData.t) :
  In c (parseLog output) ->
  ContributorData.email c <> EmptyString
  /\ ContributorData.name c <> EmptyString
  /\ lacks "|" (ContributorData.email c) = true
  /\ lacks "|" (ContributorData.name c) = true
  /\ lacks "|" (ContributorData.firstCommit c) = true
  /\ lacks "T" (ContributorData.firstCommit c) = true.
Proof.
  intros Hc. apply parseLog_record in Hc.
  destruct Hc as (x & xs & Hg & Hname & [Hdate _]).
  assert (Hvalid : forall f, In f (x :: xs) ->
            Forall (fun field => field <> EmptyString /\ lacks "|" field = true)
              [fieldsEmail f; fieldsName f; fieldsDate f]).
  { intros [[e n] d] Hf. rewrite <- Hg in Hf. apply In_group in Hf.
    destruct Hf as [Hf _]. apply lineFields_validFields in Hf.
    destruct Hf as (line & _ & Hf). now apply lineFields_fields in Hf. }
  assert (Hx := Hvalid x (or_introl eq_refl)).
  assert (He : fieldsEmail x = ContributorData.email c).
  { assert (Hin : In x (x :: xs)) by now left.
    rewrite <- Hg in Hin. now apply In_group in Hin. }
  rewrite He, <- Hname in Hx.
  inversion Hx as [|? ? [He1 He2] Hx']; subst.
  inversion Hx' as [|? ? [Hn1 Hn2] _]; subst.
  apply in_map_iff in Hdate. destruct Hdate as (f & <- & Hf).
  specialize (Hvalid f Hf).
  inversion Hvalid as [|? ? _ Hv']; subst.
  inversion Hv' as [|? ? _ Hv'']; subst.
  inversion Hv'' as [|? ? [_ Hd] _]; subst.
  destruct (dateOnly_lacks _ Hd) as [Hd1 Hd2].
  repeat split; assumption.
Qed.

Lemma parseLog_fields_witness :
  In (ContributorData.mk "alice@x.com" "Alice" 2 "2024-02-01")
    (parseLog sampleLog)
  /\ lacks "T" "2024-02-01" = true.
Proof.
  assert (H : In (ContributorData.mk "alice@x.com" "Alice" 2 "2024-02-01")
                (parseLog sampleLog)) by (left; reflexivity).
  split; [exact H|].
  exact (proj2 (proj2 (proj2 (proj2 (proj2 (parseLog_fields sampleLog _ H)))))).
Defined.
